(** * Verification of [Scripts/AIGenerated/enrich_with_metadata.py]

    The script reads a mapping from verses (slokas) to metadata, asks a
    hosted language model to analyse every verse, decodes the answer as
    JSON, inserts a [verify] flag after the [head] field of every entry
    and writes the resulting mapping.

    The embedding has four layers:
    - [Str]: Python [str] values as sequences of code points, with the
      methods the script calls ([strip], [startswith], [endswith],
      [split], [join], slicing);
    - [Val]: the Python values [json.loads] builds, with insertion-ordered
      dictionaries;
    - [Json]: the decoder behind [json.loads];
    - [Pipeline]: [parse_sloka_with_claude], [enrich_yaml] and [main],
      written in a small monad for the call log and for exceptions.

    The file system, the YAML library and the model service are
    parameters of a run ([Pipeline.world]).  What the script prints and
    how [argparse] reads the command line are left out.

    The facts come after the definitions: [StrFacts] on strings,
    [JsonFacts], [ScanFacts], [TrimFacts] and [FuelFacts] on the
    decoder, [FenceFacts] on the removal of fences, [DictFacts] and
    [PipelineFacts] on the loop, then the properties the
    specification states, each with an example, and last further
    properties of the script ([EntryFacts], [EdgeFacts], [RunFacts]
    and the theorems after them). *)

From Stdlib Require Import String Ascii List NArith ZArith Lia Bool.
Import ListNotations.

Set Warnings "-register-all".

(* ================================================================== *)
(** * Python strings *)
(* ================================================================== *)

Module Str.

Local Open Scope N_scope.

(** A Python [str] is a sequence of Unicode code points. *)
Definition pystr : Type := list N.

(** ASCII literals of the script, written as Rocq strings. *)
Definition py (s : string) : pystr :=
  List.map N_of_ascii (list_ascii_of_string s).

Definition newline : N := 10.
Definition backtick : N := 96.

Definition fence : pystr := py "```".
Definition json_fence : pystr := py "```json".

(** [str.isspace] on one code point: the characters [str.strip()]
    removes when called without argument (Unicode white space:
    U+0009..U+000D, U+001C..U+0020, U+0085, U+00A0, U+1680,
    U+2000..U+200A, U+2028, U+2029, U+202F, U+205F, U+3000). *)
Definition isspace (c : N) : bool :=
  ((9 <=? c) && (c <=? 13)) || ((28 <=? c) && (c <=? 32))
  || (c =? 133) || (c =? 160) || (c =? 5760)
  || ((8192 <=? c) && (c <=? 8202))
  || (c =? 8232) || (c =? 8233) || (c =? 8239) || (c =? 8287)
  || (c =? 12288).

Fixpoint lstrip (s : pystr) : pystr :=
  match s with
  | [] => []
  | c :: t => if isspace c then lstrip t else s
  end.

Definition rstrip (s : pystr) : pystr := rev (lstrip (rev s)).

(** [s.strip()] *)
Definition strip (s : pystr) : pystr := rstrip (lstrip s).

(** [s.startswith(p)] *)
Fixpoint startswith (s p : pystr) {struct p} : bool :=
  match p, s with
  | [], _ => true
  | _ :: _, [] => false
  | a :: p', c :: s' => (c =? a) && startswith s' p'
  end.

(** [s.endswith(p)] *)
Definition endswith (s p : pystr) : bool := startswith (rev s) (rev p).

(** [s.split(sep)] for a one-character separator: never empty,
    [''.split(sep) == ['']]. *)
Fixpoint split (sep : N) (s : pystr) : list pystr :=
  match s with
  | [] => [[]]
  | c :: t =>
      if c =? sep then [] :: split sep t
      else match split sep t with
           | l :: ls => (c :: l) :: ls
           | [] => [[c]]
           end
  end.

(** [sep.join(ls)] *)
Fixpoint join (sep : pystr) (ls : list pystr) : pystr :=
  match ls with
  | [] => []
  | [l] => l
  | l :: ls' => l ++ sep ++ join sep ls'
  end.

(** Python's slice bounds: a negative index counts from the end, and
    every index is clamped to [0 .. len]. *)
Definition clamp (len : nat) (i : Z) : nat :=
  if (i <? 0)%Z then Z.to_nat (Z.max 0 (Z.of_nat len + i))
  else Nat.min (Z.to_nat i) len.

(** [l[start:stop]]; [None] is an omitted bound. *)
Definition slice {A : Type} (l : list A) (start stop : option Z) : list A :=
  let n := length l in
  let a := match start with Some i => clamp n i | None => 0%nat end in
  let b := match stop with Some i => clamp n i | None => n end in
  firstn (b - a)%nat (skipn a l).

(** ['head' in s] for a string [s]: substring test. *)
Fixpoint contains (s p : pystr) : bool :=
  startswith s p || match s with [] => false | _ :: t => contains t p end.

Definition eqb (a b : pystr) : bool :=
  if list_eq_dec N.eq_dec a b then true else false.

(** Lines 96-105 of [parse_sloka_with_claude]: the removal of the
    markdown fence around the answer.  [response_text] is the text
    after the first [strip()] of line 94. *)
Definition generic_fence_branch (response_text : pystr) : pystr :=
  if startswith response_text fence then
    let lines := split newline response_text in
    if (2 <? length lines)%nat
    then join [newline] (slice lines (Some 1%Z) (Some (-1)%Z))
    else response_text
  else response_text.

Definition json_fence_branch (response_text : pystr) : pystr :=
  if startswith response_text json_fence
  then slice response_text (Some 7%Z) None
  else response_text.

Definition closing_fence_branch (response_text : pystr) : pystr :=
  if endswith response_text fence
  then slice response_text None (Some (-3)%Z)
  else response_text.

Definition strip_fences (response_text : pystr) : pystr :=
  strip (closing_fence_branch (json_fence_branch (generic_fence_branch response_text))).

(** The same with the second test ([startswith('```json')]) left out:
    generic-fence stripping alone. *)
Definition strip_fences_generic_only (response_text : pystr) : pystr :=
  strip (closing_fence_branch (generic_fence_branch response_text)).

(** The two shapes of fenced answers the parser is checked on. *)

(** [J] between a line [```] and a line [```]. *)
Definition fenced (J : pystr) : pystr :=
  fence ++ [newline] ++ J ++ [newline] ++ fence.

(** [J] between [```json] and [```], all on one line. *)
Definition json_fenced_inline (J : pystr) : pystr := json_fence ++ J ++ fence.

(** An answer of three lines or more: a first line, a body, a last
    line. *)
Definition framed (first body last : pystr) : pystr :=
  first ++ [newline] ++ body ++ [newline] ++ last.

End Str.

(* ================================================================== *)
(** * Python values *)
(* ================================================================== *)

Module Val.

Import Str.

(** The values [json.loads] builds.  A [float] is kept as the text
    handed to [float()]: the rounding to binary64 is not modelled, so
    equality here is finer than Python's on floats.  A [dict] is the
    list of its items in insertion order, with distinct keys; JSON
    objects only have [str] keys. *)
Inductive pyval : Type :=
| PyNone
| PyBool (b : bool)
| PyInt (n : Z)
| PyFloat (text : pystr)
| PyStr (s : pystr)
| PyList (l : list pyval)
| PyDict (d : list (pystr * pyval)).

Definition dict (V : Type) : Type := list (pystr * V).

Definition keys {V : Type} (d : dict V) : list pystr := List.map fst d.

(** [d.get(k)] *)
Fixpoint dict_get {V : Type} (d : dict V) (k : pystr) : option V :=
  match d with
  | [] => None
  | (k', v) :: d' => if Str.eqb k k' then Some v else dict_get d' k
  end.

(** [k in d] *)
Definition dict_has {V : Type} (d : dict V) (k : pystr) : bool :=
  match dict_get d k with Some _ => true | None => false end.

(** [d[k] = v]: a key already present keeps its position, a new key
    goes last. *)
Fixpoint dict_set {V : Type} (d : dict V) (k : pystr) (v : V) : dict V :=
  match d with
  | [] => [(k, v)]
  | (k', v') :: d' =>
      if Str.eqb k k' then (k', v) :: d' else (k', v') :: dict_set d' k v
  end.

(** [dict(pairs)] *)
Definition dict_of_pairs {V : Type} (pairs : list (pystr * V)) : dict V :=
  fold_left (fun d kv => dict_set d (fst kv) (snd kv)) pairs [].

(** The literal [{"entries": []}] of lines 114 and 117. *)
Definition empty_result : pyval := PyDict [(py "entries", PyList [])].

End Val.

(* ================================================================== *)
(** * json.loads *)
(* ================================================================== *)

(** The decoder of Python's [json] package (scanner.py and decoder.py,
    default settings: strict strings, no hooks).  Resource limits of an
    interpreter (recursion depth, digits of an integer) are not
    modelled; the exceptions they raise end in the same handler of
    [parse_sloka_with_claude] as a decode error does. *)
Module Json.

Import Str Val.
Local Open Scope N_scope.

(** [WHITESPACE = re.compile(r'[ \t\n\r]*')] *)
Definition is_ws (c : N) : bool :=
  (c =? 32) || (c =? 9) || (c =? 10) || (c =? 13).

Fixpoint skip_ws (s : pystr) : pystr :=
  match s with
  | [] => []
  | c :: t => if is_ws c then skip_ws t else s
  end.

Definition is_digit (c : N) : bool := (48 <=? c) && (c <=? 57).

Definition hexval (c : N) : option N :=
  if is_digit c then Some (c - 48)
  else if (65 <=? c) && (c <=? 70) then Some (c - 55)
  else if (97 <=? c) && (c <=? 102) then Some (c - 87)
  else None.

(** [_decode_uXXXX]: four hexadecimal digits. *)
Definition hex4 (a b c d : N) : option N :=
  match hexval a, hexval b, hexval c, hexval d with
  | Some x, Some y, Some z, Some w => Some (((x * 16 + y) * 16 + z) * 16 + w)
  | _, _, _, _ => None
  end.

(** The [BACKSLASH] table of decoder.py. *)
Definition backslash (esc : N) : option N :=
  if esc =? 34 then Some 34
  else if esc =? 92 then Some 92
  else if esc =? 47 then Some 47
  else if esc =? 98 then Some 8
  else if esc =? 102 then Some 12
  else if esc =? 110 then Some 10
  else if esc =? 114 then Some 13
  else if esc =? 116 then Some 9
  else None.

Definition high_surrogate (u : N) : bool := (55296 <=? u) && (u <=? 56319).
Definition low_surrogate (u : N) : bool := (56320 <=? u) && (u <=? 57343).

(** [scanstring] reads the text after an opening quote one character
    at a time: plain text, the character after a backslash, the four
    hexadecimal digits after [\u]. *)
Inductive scan_state : Type :=
| Plain
| Escape
| Hex (more : nat) (acc : N).

(** A decoded character: [Esc] when it was written as [\uXXXX]. *)
Inductive item : Type :=
| Lit (c : N)
| Esc (u : N).

Definition push (i : item) (r : option (list item * pystr))
  : option (list item * pystr) :=
  match r with
  | Some (items, rest) => Some (i :: items, rest)
  | None => None
  end.

(** The characters up to the closing quote and the text after it.  A
    control character, an unknown escape, a digit that is not
    hexadecimal and the end of the text are errors. *)
Fixpoint scan_items (st : scan_state) (s : pystr) : option (list item * pystr) :=
  match s with
  | [] => None
  | c :: t =>
      match st with
      | Plain =>
          if c =? 34 then Some ([], t)
          else if c =? 92 then scan_items Escape t
          else if c <? 32 then None
          else push (Lit c) (scan_items Plain t)
      | Escape =>
          if c =? 117 then scan_items (Hex 4 0) t
          else
            match backslash c with
            | Some ch => push (Lit ch) (scan_items Plain t)
            | None => None
            end
      | Hex more acc =>
          match hexval c, more with
          | None, _ => None
          | Some _, O => None
          | Some h, S O => push (Esc (acc * 16 + h)) (scan_items Plain t)
          | Some h, S more' => scan_items (Hex more' (acc * 16 + h)) t
          end
      end
  end.

(** A high surrogate escape directly followed by a low surrogate
    escape is one character; any other escape stands for itself. *)
Fixpoint join_surrogates (items : list item) : pystr :=
  match items with
  | [] => []
  | Lit c :: rest => c :: join_surrogates rest
  | Esc uni :: rest =>
      match rest with
      | Esc uni2 :: rest' =>
          if high_surrogate uni && low_surrogate uni2
          then (65536 + ((uni - 55296) * 1024 + (uni2 - 56320))) :: join_surrogates rest'
          else uni :: join_surrogates rest
      | _ => uni :: join_surrogates rest
      end
  end.

(** [scanstring], called after the opening quote: the decoded string
    and the text after the closing quote. *)
Definition scanstring (s : pystr) : option (pystr * pystr) :=
  match scan_items Plain s with
  | Some (items, rest) => Some (join_surrogates items, rest)
  | None => None
  end.

(** A greedy run of digits. *)
Fixpoint digits (s : pystr) : pystr * pystr :=
  match s with
  | [] => ([], [])
  | c :: t =>
      if is_digit c then let (ds, r) := digits t in (c :: ds, r)
      else ([], s)
  end.

(** The three groups of [NUMBER_RE]: an optional minus sign and either
    [0] or a digit [1-9] with more digits; a dot with one digit or
    more; [e] or [E] with an optional sign and one digit or more.
    Each gives the text matched and the text left. *)
Definition int_group (s : pystr) : option (pystr * pystr) :=
  let (sign, s1) :=
    match s with
    | c :: t => if c =? 45 then ([c], t) else ([], s)
    | [] => ([], s)
    end in
  match s1 with
  | [] => None
  | c :: t =>
      if c =? 48 then Some (sign ++ [c], t)
      else if is_digit c then let (ds, r) := digits t in Some (sign ++ c :: ds, r)
      else None
  end.

Definition frac_group (s : pystr) : pystr * pystr :=
  match s with
  | dot :: d :: t =>
      if (dot =? 46) && is_digit d
      then let (ds, r) := digits t in (dot :: d :: ds, r)
      else ([], s)
  | _ => ([], s)
  end.

Definition exp_group (s : pystr) : pystr * pystr :=
  match s with
  | e :: t =>
      if (e =? 101) || (e =? 69) then
        let (sign, t1) :=
          match t with
          | c :: t' => if (c =? 45) || (c =? 43) then ([c], t') else ([], t)
          | [] => ([], t)
          end in
        match t1 with
        | d :: t2 =>
            if is_digit d
            then let (ds, r) := digits t2 in (e :: sign ++ d :: ds, r)
            else ([], s)
        | [] => ([], s)
        end
      else ([], s)
  | [] => ([], s)
  end.

(** [int(text)] for the text of [int_group]. *)
Definition decimal (ds : pystr) : Z :=
  fold_left (fun acc c => (acc * 10 + (Z.of_N c - 48))%Z) ds 0%Z.

Definition parse_int (text : pystr) : Z :=
  match text with
  | c :: t => if c =? 45 then (- decimal t)%Z else decimal text
  | [] => 0%Z
  end.

(** [match_number] and the conversion of its groups. *)
Definition match_number (s : pystr) : option (pyval * pystr) :=
  match int_group s with
  | None => None
  | Some (integer, r0) =>
      let (frac, r1) := frac_group r0 in
      let (exp, r2) := exp_group r1 in
      match frac, exp with
      | [], [] => Some (PyInt (parse_int integer), r2)
      | _, _ => Some (PyFloat (integer ++ frac ++ exp), r2)
      end
  end.

(** The branches of [_scan_once] that call nothing back: the three
    constants, the numbers, and the three names of special floats. *)
Definition scan_atom (s : pystr) : option (pyval * pystr) :=
  if startswith s (py "null") then Some (PyNone, skipn 4 s)
  else if startswith s (py "true") then Some (PyBool true, skipn 4 s)
  else if startswith s (py "false") then Some (PyBool false, skipn 5 s)
  else
    match match_number s with
    | Some r => Some r
    | None =>
        if startswith s (py "NaN") then Some (PyFloat (py "NaN"), skipn 3 s)
        else if startswith s (py "Infinity")
        then Some (PyFloat (py "Infinity"), skipn 8 s)
        else if startswith s (py "-Infinity")
        then Some (PyFloat (py "-Infinity"), skipn 9 s)
        else None
    end.

(** [_scan_once] with [JSONObject] and [JSONArray].  [fuel] bounds the
    number of nested calls; [json_loads] gives enough of it
    ([scan_once_fuel] below).  [object_members] starts after the
    opening quote of a key, [array_elements] at a value. *)
Fixpoint scan_once (fuel : nat) (s : pystr) {struct fuel} : option (pyval * pystr) :=
  match fuel with
  | O => None
  | S fuel' =>
      match s with
      | [] => None
      | nextchar :: s' =>
          if nextchar =? 34 then
            match scanstring s' with
            | Some (str, r) => Some (PyStr str, r)
            | None => None
            end
          else if nextchar =? 123 then
            match skip_ws s' with
            | c :: t =>
                if c =? 125 then Some (PyDict [], t)
                else if c =? 34 then
                  match object_members fuel' t with
                  | Some (pairs, r) => Some (PyDict (dict_of_pairs pairs), r)
                  | None => None
                  end
                else None
            | [] => None
            end
          else if nextchar =? 91 then
            match skip_ws s' with
            | c :: t =>
                if c =? 93 then Some (PyList [], t)
                else
                  match array_elements fuel' (c :: t) with
                  | Some (values, r) => Some (PyList values, r)
                  | None => None
                  end
            | [] => None
            end
          else scan_atom s
      end
  end

with object_members (fuel : nat) (s : pystr) {struct fuel}
  : option (list (pystr * pyval) * pystr) :=
  match fuel with
  | O => None
  | S fuel' =>
      match scanstring s with
      | None => None
      | Some (key, r) =>
          match skip_ws r with
          | colon :: r1 =>
              if colon =? 58 then
                match scan_once fuel' (skip_ws r1) with
                | None => None
                | Some (value, r2) =>
                    match skip_ws r2 with
                    | c :: r3 =>
                        if c =? 125 then Some ([(key, value)], r3)
                        else if c =? 44 then
                          match skip_ws r3 with
                          | q :: r4 =>
                              if q =? 34 then
                                match object_members fuel' r4 with
                                | Some (pairs, r5) => Some ((key, value) :: pairs, r5)
                                | None => None
                                end
                              else None
                          | [] => None
                          end
                        else None
                    | [] => None
                    end
                end
              else None
          | [] => None
          end
      end
  end

with array_elements (fuel : nat) (s : pystr) {struct fuel}
  : option (list pyval * pystr) :=
  match fuel with
  | O => None
  | S fuel' =>
      match scan_once fuel' s with
      | None => None
      | Some (value, r) =>
          match skip_ws r with
          | c :: r1 =>
              if c =? 93 then Some ([value], r1)
              else if c =? 44 then
                match array_elements fuel' (skip_ws r1) with
                | Some (values, r2) => Some (value :: values, r2)
                | None => None
                end
              else None
          | [] => None
          end
      end
  end.

(** [json.loads(s)] for a [str]: leading white space, one value,
    trailing white space; [None] is [JSONDecodeError]. *)
Definition json_loads (s : pystr) : option pyval :=
  match scan_once (2 * length s + 1) (skip_ws s) with
  | Some (v, r) =>
      match skip_ws r with
      | [] => Some v
      | _ :: _ => None
      end
  | None => None
  end.

(** JSON texts in examples are written with ['] for the double quote. *)
Definition js (s : string) : pystr :=
  List.map (fun c => if c =? 39 then 34 else c) (py s).

(** ** Vocabulary for the properties of the decoder *)

(** A character that is neither white space for [strip] nor a
    backtick: what a JSON text starts and ends with. *)
Definition solid (c : N) : Prop := isspace c = false /\ c <> backtick.

(** A run of JSON white space. *)
Definition blank (w : pystr) : Prop := Forall (fun c => is_ws c = true) w.

(** [r] is what is left of [s] after a part that ends with a solid
    character. *)
Definition ends (s r : pystr) : Prop :=
  exists pre e, s = pre ++ e :: r /\ solid e.

(** A run of digits, possibly empty, or a text ending with a digit. *)
Definition digit_end (m : pystr) : Prop :=
  m = [] \/ exists m' d, m = m' ++ [d] /\ is_digit d = true.

(** The result of a scan with [w] appended to what is left. *)
Definition with_rest {A : Type} (w : pystr) (o : option (A * pystr))
  : option (A * pystr) :=
  match o with
  | Some (a, r) => Some (a, r ++ w)
  | None => None
  end.

End Json.

(* ================================================================== *)
(** * The enrichment pipeline *)
(* ================================================================== *)

Module Pipeline.

Import Str Val Json.

(** ** Exceptions, outcomes and the monad of the script *)

(** The exception classes the control flow of the script tells apart.
    [OtherException] stands for every other class derived from
    [Exception] (the errors of the client for authentication, quota
    and network, [OSError], [IndexError], ...).  [SystemExit] is what
    [sys.exit] raises; it is not derived from [Exception]. *)
Inductive exn : Type :=
| JSONDecodeError
| UnboundLocalError
| AttributeError
| TypeError
| OtherException
| SystemExit (code : Z).

(** [isinstance(e, Exception)] *)
Definition is_Exception (e : exn) : bool :=
  match e with
  | SystemExit _ => false
  | _ => true
  end.

Inductive outcome (A : Type) : Type :=
| Returns (a : A)
| Raises (e : exn).

Arguments Returns {A} a.
Arguments Raises {A} e.

(** What a run leaves behind: the prompts sent to the model, in order,
    and the mapping written to the output file, if any. *)
Record state : Type := {
  calls : list pystr;
  written : option (dict pyval)
}.

Definition initial : state := {| calls := []; written := None |}.

Definition M (A : Type) : Type := state -> outcome A * state.

Definition ret {A : Type} (a : A) : M A := fun st => (Returns a, st).

Definition raise {A : Type} (e : exn) : M A := fun st => (Raises e, st).

Definition lift {A : Type} (o : outcome A) : M A := fun st => (o, st).

Definition bind {A B : Type} (m : M A) (k : A -> M B) : M B :=
  fun st =>
    match m st with
    | (Returns a, st') => k a st'
    | (Raises e, st') => (Raises e, st')
    end.

(** The body of a [try]: its exception, if any, is handed over. *)
Definition attempt {A : Type} (m : M A) : M (outcome A) :=
  fun st => let (o, st') := m st in (Returns o, st').

Notation "x <- m ;; k" := (bind m (fun x => k))
  (at level 61, m at next level, right associativity).

(** ** The world around the script *)

(** What the script does not define: the file system, the YAML
    library and the model service.
    - [input_exists]: [Path(args.input_yaml).exists()];
    - [safe_load]: lines 126-129, the mapping read from the input
      file; a file that cannot be read, or that holds no mapping,
      raises before the first verse is reached;
    - [AnthropicVertex]: the constructor of the client, line 133;
    - [messages_create]: lines 86-94 up to the access to
      [message.content[0].text], for a prompt;
    - [dump]: lines 167-174, whether the output can be written. *)
Record world : Type := {
  input_exists : bool;
  safe_load : outcome (dict pyval);
  AnthropicVertex : outcome unit;
  messages_create : pystr -> outcome pystr;
  dump : dict pyval -> outcome unit
}.

Section Script.

(** The f-string of lines 26-83: fixed text before and after the one
    place where [sloka_text] is spliced in. *)
Variables prompt_head prompt_tail : pystr.

Definition prompt (sloka_text : pystr) : pystr :=
  prompt_head ++ sloka_text ++ prompt_tail.

Definition record_call (request : pystr) (st : state) : state :=
  {| calls := calls st ++ [request]; written := written st |}.

(** Lines 86-94: one call of the model, recorded in [calls]. *)
Definition call_model (w : world) (request : pystr) : M pystr :=
  fun st => (messages_create w request, record_call request st).

(** The two [except] clauses, lines 111-117.  [response_text] is the
    local variable of that name, [None] while line 94 has not assigned
    it: the first clause reads it on line 113. *)
Definition handlers (e : exn) (response_text : option pystr) : M pyval :=
  match e with
  | JSONDecodeError =>
      match response_text with
      | Some _ => ret empty_result
      | None => raise UnboundLocalError
      end
  | SystemExit _ => raise e
  | _ => ret empty_result
  end.

(** Lines 15-117. *)
Definition parse_sloka_with_claude (w : world) (sloka_text : pystr) : M pyval :=
  message <- attempt (call_model w (prompt sloka_text)) ;;
  match message with
  | Raises e => handlers e None
  | Returns text =>
      let response_text := strip_fences (strip text) in
      match json_loads response_text with
      | Some parsed => ret parsed
      | None => handlers JSONDecodeError (Some response_text)
      end
  end.

(** ** The verify flag, lines 149-159 *)

(** Lines 152-156: [new_entry], from the items of [entry]. *)
Definition new_entry (entry : dict pyval) (head : pyval) : dict pyval :=
  fold_left
    (fun acc kv =>
       if negb (Str.eqb (fst kv) (py "head"))
       then dict_set acc (fst kv) (snd kv)
       else acc)
    entry
    [(py "head", head); (py "verify", PyBool false)].

Definition is_str (s : pystr) (v : pyval) : bool :=
  match v with
  | PyStr s' => Str.eqb s' s
  | _ => false
  end.

(** The body of the loop for one [entry], lines 150-159: the entry as
    the body leaves it.  ['head' in entry] is a key test on a dict, a
    substring test on a str, a membership test on a list and a
    [TypeError] on anything else; [entry['head']] is a [TypeError] on a
    str and on a list. *)
Definition visit (entry : pyval) : outcome pyval :=
  match entry with
  | PyDict d =>
      match dict_get d (py "head") with
      | Some head => Returns (PyDict (new_entry d head))
      | None => Returns entry
      end
  | PyStr s => if contains s (py "head") then Raises TypeError else Returns entry
  | PyList l => if existsb (is_str (py "head")) l then Raises TypeError else Returns entry
  | _ => Raises TypeError
  end.

Fixpoint visit_all (entries : list pyval) : outcome (list pyval) :=
  match entries with
  | [] => Returns []
  | entry :: rest =>
      match visit entry with
      | Raises e => Raises e
      | Returns entry' =>
          match visit_all rest with
          | Raises e => Raises e
          | Returns rest' => Returns (entry' :: rest')
          end
      end
  end.

(** What [for entry in v] goes through: the elements of a list, the
    characters of a str, the keys of a dict. *)
Definition iterate (v : pyval) : outcome (list pyval) :=
  match v with
  | PyList l => Returns l
  | PyStr s => Returns (List.map (fun c => PyStr [c]) s)
  | PyDict d => Returns (List.map (fun kv => PyStr (fst kv)) d)
  | _ => Raises TypeError
  end.

(** Lines 149-159 on [parsed]: [parsed] after the loop.  The entries of
    a list are dicts changed in place; the items of a str or of a dict
    are strs, which the body cannot change. *)
Definition insert_verify (parsed : pyval) : outcome pyval :=
  match parsed with
  | PyDict d =>
      match dict_get d (py "entries") with
      | None => Returns parsed
      | Some (PyList entries) =>
          match visit_all entries with
          | Returns entries' => Returns (PyDict (dict_set d (py "entries") (PyList entries')))
          | Raises e => Raises e
          end
      | Some v =>
          match iterate v with
          | Raises e => Raises e
          | Returns items =>
              match visit_all items with
              | Returns _ => Returns parsed
              | Raises e => Raises e
              end
          end
      end
  | _ => Raises AttributeError
  end.

(** ** The driver *)

(** Lines 146-159: what one turn of the loop stores for [sloka]. *)
Definition enrich_sloka (w : world) (sloka : pystr) : M pyval :=
  parsed <- parse_sloka_with_claude w sloka ;;
  lift (insert_verify parsed).

(** Lines 143-162: the loop over [data.items()], with [enriched_data]
    as accumulator. *)
Fixpoint enrich_loop (w : world) (items : dict pyval) (enriched_data : dict pyval)
  : M (dict pyval) :=
  match items with
  | [] => ret enriched_data
  | (sloka, metadata) :: rest =>
      parsed <- enrich_sloka w sloka ;;
      enrich_loop w rest (dict_set enriched_data sloka parsed)
  end.

(** Lines 132-139. *)
Definition make_client (w : world) : M unit :=
  match AnthropicVertex w with
  | Returns c => ret c
  | Raises e => if is_Exception e then raise (SystemExit 1) else raise e
  end.

(** Lines 167-174.  [written] is set once the dump has completed.  A
    dump that raises may leave the output file created or emptied
    (line 172 opens it before line 173 writes): [written] does not
    record that, it stays as it was. *)
Definition write_output (w : world) (enriched_data : dict pyval) : M unit :=
  fun st =>
    match dump w enriched_data with
    | Returns _ => (Returns tt, {| calls := calls st; written := Some enriched_data |})
    | Raises e => (Raises e, st)
    end.

(** Lines 120-176. *)
Definition enrich_yaml (w : world) : M unit :=
  data <- lift (safe_load w) ;;
  _ <- make_client w ;;
  enriched_data <- enrich_loop w data [] ;;
  write_output w enriched_data.

(** Lines 208-213, once the arguments are parsed. *)
Definition main (w : world) : M unit :=
  if input_exists w then enrich_yaml w else raise (SystemExit 1).

(** The exit status of the interpreter: 0 when [main] returns, the
    code of [sys.exit], 1 for an exception nobody handles. *)
Definition exit_status (o : outcome unit) : Z :=
  match o with
  | Returns _ => 0
  | Raises (SystemExit code) => code
  | Raises _ => 1
  end.

Definition run (w : world) : Z * state :=
  let (o, st) := main w initial in (exit_status o, st).

(** The script on the mapping [data] in place of what [safe_load]
    gives. *)
Definition with_input (w : world) (data : dict pyval) : world :=
  {| input_exists := input_exists w;
     safe_load := Returns data;
     AnthropicVertex := AnthropicVertex w;
     messages_create := messages_create w;
     dump := dump w |}.

(** The response parser on its own: what [parse_sloka_with_claude]
    makes of an answer [text] of the model. *)
Definition parse_response (text : pystr) : pyval :=
  match json_loads (strip_fences (strip text)) with
  | Some parsed => parsed
  | None => empty_result
  end.

(** The same parser without the test for the json-tagged fence. *)
Definition parse_response_generic_only (text : pystr) : pyval :=
  match json_loads (strip_fences_generic_only (strip text)) with
  | Some parsed => parsed
  | None => empty_result
  end.

End Script.

(** The fields [new_entry] copies after [head] and [verify]. *)
Definition not_head (kv : pystr * pyval) : bool :=
  negb (Str.eqb (fst kv) (py "head")).

(** The fields of an entry other than [head] and [verify]. *)
Definition other_field (kv : pystr * pyval) : bool :=
  negb (Str.eqb (fst kv) (py "head")) && negb (Str.eqb (fst kv) (py "verify")).

(** The [verify] field of an entry, [False] for an entry without one. *)
Definition own_verify (entry : dict pyval) : pyval :=
  match dict_get entry (py "verify") with
  | Some v => v
  | None => PyBool false
  end.

(** [isinstance(v, dict)] *)
Definition is_dict (v : pyval) : bool :=
  match v with
  | PyDict _ => true
  | _ => false
  end.

End Pipeline.

(* ================================================================== *)
(** * Worlds and answers for the examples *)
(* ================================================================== *)

Module Examples.

Import Str Val Json Pipeline.

(** The verse of the scenario, "naaga" in Devanagari, and a second one. *)
Definition verse1 : pystr := [2344; 2366; 2327; 2366]%N.
Definition verse2 : pystr := py "sarpa".

Definition two_verses : dict pyval := [(verse1, PyDict []); (verse2, PyDict [])].

(** The same verses with other metadata. *)
Definition two_verses' : dict pyval := [(verse1, PyNone); (verse2, PyInt 7)].

Definition answer_ok : pystr :=
  js "```json
{'entries': [{'head': 'a', 'gender': 'm', 'syns': [{'prati': 'b', 'gender': 'm'}]}, {'gender': 'f'}]}
```".

(** A model that gives the same answer to every prompt. *)
Definition world_of (answer : outcome pystr) (data : dict pyval) : world :=
  {| input_exists := true;
     safe_load := Returns data;
     AnthropicVertex := Returns tt;
     messages_create := fun _ => answer;
     dump := fun _ => Returns tt |}.

Definition no_input (w : world) : world :=
  {| input_exists := false;
     safe_load := safe_load w;
     AnthropicVertex := AnthropicVertex w;
     messages_create := messages_create w;
     dump := dump w |}.

Definition no_client (w : world) : world :=
  {| input_exists := input_exists w;
     safe_load := safe_load w;
     AnthropicVertex := Raises OtherException;
     messages_create := messages_create w;
     dump := dump w |}.

(** A disk that refuses the output file. *)
Definition no_output (w : world) : world :=
  {| input_exists := input_exists w;
     safe_load := safe_load w;
     AnthropicVertex := AnthropicVertex w;
     messages_create := messages_create w;
     dump := fun _ => Raises OtherException |}.

(** The prompt text of the examples. *)
Definition before_sloka : pystr := py "Sloka: ".
Definition after_sloka : pystr := py " Now parse the given sloka and return JSON:".

(** What [answer_ok] becomes once the verify flag is inserted. *)
Definition enriched_ok : pyval :=
  PyDict
    [(py "entries",
      PyList
        [PyDict
           [(py "head", PyStr (py "a"));
            (py "verify", PyBool false);
            (py "gender", PyStr (py "m"));
            (py "syns",
             PyList [PyDict [(py "prati", PyStr (py "b")); (py "gender", PyStr (py "m"))]])];
         PyDict [(py "gender", PyStr (py "f"))]])].

Definition output_ok : dict pyval := [(verse1, enriched_ok); (verse2, enriched_ok)].

(** An answer of four lines whose first two lines are [```json]. *)
Definition answer_two_fences : pystr :=
  py "```json
```json
[1]
```".

Definition answer_fenced : pystr :=
  js "```json
{'entries': []}
```".

(** An entry as the model is asked to give it, and rebuilt. *)
Definition entry_in : dict pyval :=
  [(py "gender", PyStr (py "m")); (py "head", PyStr (py "a")); (py "syns", PyList [])].

Definition entry_out : dict pyval :=
  [(py "head", PyStr (py "a")); (py "verify", PyBool false);
   (py "gender", PyStr (py "m")); (py "syns", PyList [])].

(** A decoded answer with one entry and a field of its own, before
    and after the insertion of the flags. *)
Definition parsed_in : dict pyval :=
  [(py "note", PyStr (py "x")); (py "entries", PyList [PyDict entry_in])].

Definition parsed_out : dict pyval :=
  [(py "note", PyStr (py "x")); (py "entries", PyList [PyDict entry_out])].

(** A JSON text of two lines, the same text on one line, and their
    value. *)
Definition two_lines : pystr :=
  js "{'entries':
 [{'head': 'a'}]}".

Definition one_line : pystr := js "{'entries': [{'head': 'a'}]}".

Definition one_entry : pyval :=
  PyDict [(py "entries", PyList [PyDict [(py "head", PyStr (py "a"))]])].

(** An answer of two lines between fences without tag. *)
Definition answer_short : pystr :=
  py "```
[1]```".

(** A model that fails on the first verse and answers the others. *)
Definition flaky : world :=
  {| input_exists := true;
     safe_load := Returns two_verses;
     AnthropicVertex := Returns tt;
     messages_create :=
       fun request =>
         if Str.eqb request (prompt before_sloka after_sloka verse1)
         then Raises OtherException
         else Returns answer_ok;
     dump := fun _ => Returns tt |}.

End Examples.

(* ================================================================== *)
(** * Facts about strings *)
(* ================================================================== *)

Module StrFacts.

Import Str.
Local Open Scope N_scope.

Lemma eqb_eq (a b : pystr) : Str.eqb a b = true <-> a = b.
Proof.
  unfold Str.eqb. destruct (list_eq_dec N.eq_dec a b); split; congruence.
Qed.

Lemma eqb_refl (a : pystr) : Str.eqb a a = true.
Proof. now apply eqb_eq. Qed.

Lemma eqb_neq (a b : pystr) : Str.eqb a b = false <-> a <> b.
Proof.
  unfold Str.eqb. destruct (list_eq_dec N.eq_dec a b); split; congruence.
Qed.

(** *** strip *)

Lemma lstrip_solid (c : N) (s : pystr) :
  isspace c = false -> lstrip (c :: s) = c :: s.
Proof. intros H. simpl. now rewrite H. Qed.

Lemma lstrip_spaces (w s : pystr) :
  Forall (fun c => isspace c = true) w -> lstrip (w ++ s) = lstrip s.
Proof.
  induction 1 as [|c w Hc _ IH]; simpl; [reflexivity|].
  now rewrite Hc.
Qed.

Lemma rstrip_solid (s : pystr) (c : N) :
  isspace c = false -> rstrip (s ++ [c]) = s ++ [c].
Proof.
  intros H. unfold rstrip. rewrite rev_app_distr. simpl.
  rewrite H. simpl. now rewrite rev_involutive.
Qed.

Lemma rstrip_spaces (s w : pystr) :
  Forall (fun c => isspace c = true) w -> rstrip (s ++ w) = rstrip s.
Proof.
  intros H. unfold rstrip. rewrite rev_app_distr.
  rewrite lstrip_spaces; [reflexivity|]. now apply Forall_rev.
Qed.

(** A text between two runs of white space, itself starting and ending
    with other characters, is what [strip] returns. *)
Lemma strip_core (w1 w2 mid : pystr) (a z : N) :
  Forall (fun c => isspace c = true) w1 ->
  Forall (fun c => isspace c = true) w2 ->
  isspace a = false -> isspace z = false ->
  (exists m, mid = a :: m) -> (exists m, mid = m ++ [z]) ->
  strip (w1 ++ mid ++ w2) = mid.
Proof.
  intros H1 H2 Ha Hz [m Hm] [m' Hm']. unfold strip.
  rewrite lstrip_spaces by assumption.
  rewrite Hm at 1. rewrite <- app_comm_cons, lstrip_solid by assumption.
  rewrite app_comm_cons, <- Hm.
  rewrite rstrip_spaces by assumption.
  rewrite Hm'. now apply rstrip_solid.
Qed.

Lemma strip_solid (mid : pystr) (a z : N) :
  isspace a = false -> isspace z = false ->
  (exists m, mid = a :: m) -> (exists m, mid = m ++ [z]) ->
  strip mid = mid.
Proof.
  intros. rewrite <- (strip_core [] [] mid a z) at 2; auto.
  now rewrite app_nil_r.
Qed.

(** *** startswith, endswith *)

Lemma startswith_app (p s : pystr) : startswith (p ++ s) p = true.
Proof.
  induction p as [|a p IH]; simpl; [reflexivity|].
  now rewrite N.eqb_refl.
Qed.

Lemma startswith_inv (s p : pystr) :
  startswith s p = true -> exists t, s = p ++ t.
Proof.
  revert s. induction p as [|a p IH]; intros s H; simpl in *.
  - now exists s.
  - destruct s as [|c s]; [discriminate|].
    apply andb_prop in H as [Hc Hs]. apply N.eqb_eq in Hc. subst.
    destruct (IH _ Hs) as [t ->]. now exists t.
Qed.

Lemma startswith_head (c a : N) (s p : pystr) :
  c <> a -> startswith (c :: s) (a :: p) = false.
Proof. intros H. simpl. apply N.eqb_neq in H. now rewrite H. Qed.

Lemma endswith_app (s p : pystr) : endswith (s ++ p) p = true.
Proof. unfold endswith. rewrite rev_app_distr. apply startswith_app. Qed.

Lemma endswith_last (s p : pystr) (c a : N) :
  c <> a -> endswith (s ++ [c]) (p ++ [a]) = false.
Proof.
  intros H. unfold endswith. rewrite !rev_app_distr. simpl.
  apply N.eqb_neq in H. now rewrite H.
Qed.

(** A prefix test with a pattern free of [c] does not look past [c]. *)
Lemma startswith_stop (a b p : pystr) (c : N) :
  ~ In c p -> startswith (a ++ c :: b) p = startswith a p.
Proof.
  revert p. induction a as [|x a IH]; intros p Hp; simpl.
  - destruct p as [|y p]; [reflexivity|].
    simpl. destruct (N.eqb_spec c y) as [->|]; [|reflexivity].
    exfalso. apply Hp. now left.
  - destruct p as [|y p]; [reflexivity|]. simpl.
    rewrite IH; [reflexivity|]. intros Hin. apply Hp. now right.
Qed.

(** *** split and join *)

Lemma split_nonempty (sep : N) (s : pystr) : split sep s <> [].
Proof.
  induction s as [|c s IH]; simpl; [discriminate|].
  destruct (c =? sep); [discriminate|].
  destruct (split sep s); [contradiction|discriminate].
Qed.

Lemma split_app (sep : N) (a b : pystr) :
  split sep (a ++ sep :: b) = split sep a ++ split sep b.
Proof.
  induction a as [|c a IH]; simpl.
  - now rewrite N.eqb_refl.
  - destruct (c =? sep); [now rewrite IH|].
    rewrite IH. pose proof (split_nonempty sep a) as Hne.
    destruct (split sep a); [contradiction|reflexivity].
Qed.

Lemma split_no_sep (sep : N) (s : pystr) : ~ In sep s -> split sep s = [s].
Proof.
  induction s as [|c s IH]; intros H; simpl; [reflexivity|].
  destruct (N.eqb_spec c sep) as [-> | _].
  - exfalso. apply H. now left.
  - rewrite IH; [reflexivity|]. intros Hin. apply H. now right.
Qed.

Lemma join_split (sep : N) (s : pystr) : join [sep] (split sep s) = s.
Proof.
  induction s as [|c s IH]; simpl; [reflexivity|].
  destruct (N.eqb_spec c sep) as [-> | _].
  - pose proof (split_nonempty sep s) as Hne.
    destruct (split sep s) as [|l ls]; [contradiction|].
    change (join [sep] ([] :: l :: ls)) with ([] ++ [sep] ++ join [sep] (l :: ls)).
    now rewrite IH.
  - pose proof (split_nonempty sep s) as Hne.
    destruct (split sep s) as [|l ls]; [contradiction|].
    destruct ls as [|l' ls].
    + simpl in *. now rewrite IH.
    + change (join [sep] ((c :: l) :: l' :: ls)) with (c :: (l ++ [sep] ++ join [sep] (l' :: ls))).
      change (join [sep] (l :: l' :: ls)) with (l ++ [sep] ++ join [sep] (l' :: ls)) in IH.
      now rewrite IH.
Qed.

(** The first line of a text: the first element of its [split]. *)
Lemma join_cons_startswith (l : pystr) (ls : list pystr) (p : pystr) :
  ~ In newline p ->
  startswith (join [newline] (l :: ls)) p = startswith l p.
Proof.
  intros Hp. destruct ls as [|l' ls]; [reflexivity|].
  change (join [newline] (l :: l' :: ls)) with (l ++ newline :: join [newline] (l' :: ls)).
  now apply startswith_stop.
Qed.

(** *** slices *)

Lemma slice_inner {A : Type} (x y : A) (m : list A) :
  slice (x :: m ++ [y]) (Some 1%Z) (Some (-1)%Z) = m.
Proof.
  unfold slice, clamp. cbn [Z.ltb Z.compare].
  replace (length (x :: m ++ [y])) with (S (S (length m))).
  2:{ simpl. rewrite length_app. simpl. lia. }
  replace (Z.to_nat (Z.max 0 (Z.of_nat (S (S (length m))) + -1))) with (S (length m)) by lia.
  replace (Nat.min (Z.to_nat 1) (S (S (length m)))) with 1%nat by lia.
  replace (S (length m) - 1)%nat with (length m) by lia.
  simpl. rewrite firstn_app, firstn_all, Nat.sub_diag. simpl. apply app_nil_r.
Qed.

Lemma slice_from {A : Type} (p s : list A) (n : Z) :
  Z.of_nat (length p) = n -> slice (p ++ s) (Some n) None = s.
Proof.
  intros <-. unfold slice, clamp.
  destruct (Z.ltb_spec (Z.of_nat (length p)) 0); [lia|].
  rewrite Nat2Z.id, length_app.
  replace (Nat.min (length p) (length p + length s)) with (length p) by lia.
  replace (length p + length s - length p)%nat with (length s) by lia.
  rewrite skipn_app, skipn_all, Nat.sub_diag. simpl. apply firstn_all.
Qed.

Lemma slice_until {A : Type} (s p : list A) (n : Z) :
  (n < 0)%Z -> Z.of_nat (length p) = (- n)%Z -> slice (s ++ p) None (Some n) = s.
Proof.
  intros Hn Hp. unfold slice, clamp.
  destruct (Z.ltb_spec n 0); [|lia].
  rewrite length_app.
  replace (Z.to_nat (Z.max 0 (Z.of_nat (length s + length p) + n))) with (length s) by lia.
  rewrite Nat.sub_0_r. simpl.
  rewrite firstn_app, firstn_all, Nat.sub_diag. simpl. apply app_nil_r.
Qed.

End StrFacts.

(* ================================================================== *)
(** * Facts about the decoder: characters, white space, numbers *)
(* ================================================================== *)

Module JsonFacts.

Import Str Val Json StrFacts.
Local Open Scope N_scope.

(** Case analysis on the comparisons of a goal, closing on the way the
    branches that contradict the hypotheses. *)
Ltac compare_N :=
  repeat (match goal with
          | |- context [?a =? ?b] => destruct (N.eqb_spec a b)
          | |- context [?a <=? ?b] => destruct (N.leb_spec a b)
          | |- context [?a <? ?b] => destruct (N.ltb_spec a b)
          end; try lia);
  simpl; try reflexivity; try discriminate.

(** ** Characters *)

Lemma is_ws_cases (c : N) :
  is_ws c = true -> c = 32 \/ c = 9 \/ c = 10 \/ c = 13.
Proof. unfold is_ws. compare_N; auto. Qed.

Lemma is_ws_isspace (c : N) : is_ws c = true -> isspace c = true.
Proof.
  intros H. destruct (is_ws_cases _ H) as [-> | [-> | [-> | ->]]]; reflexivity.
Qed.

Lemma is_ws_not_solid (c : N) : is_ws c = true -> ~ solid c.
Proof. intros H [Hs _]. apply is_ws_isspace in H. congruence. Qed.

Lemma solid_not_ws (c : N) : solid c -> is_ws c = false.
Proof.
  intros [Hs _]. destruct (is_ws c) eqn:E; [|reflexivity].
  apply is_ws_isspace in E. congruence.
Qed.

Lemma digit_solid (c : N) : is_digit c = true -> solid c.
Proof.
  unfold is_digit. intros H. apply andb_prop in H as [H1 H2].
  apply N.leb_le in H1, H2. split.
  - unfold isspace. compare_N.
  - unfold backtick. lia.
Qed.

Lemma digit_not_ws (c : N) : is_ws c = true -> is_digit c = false.
Proof.
  intros H. destruct (is_ws_cases _ H) as [-> | [-> | [-> | ->]]]; reflexivity.
Qed.

Lemma hexval_ws (c : N) : is_ws c = true -> hexval c = None.
Proof.
  intros H. destruct (is_ws_cases _ H) as [-> | [-> | [-> | ->]]]; reflexivity.
Qed.

Ltac solid_char := split; [reflexivity | discriminate].

(** ** White space *)

Lemma blank_spaces (w : pystr) :
  blank w -> Forall (fun c => isspace c = true) w.
Proof. apply Forall_impl. exact is_ws_isspace. Qed.

Lemma skip_ws_split (s : pystr) :
  exists w, blank w /\ s = w ++ skip_ws s.
Proof.
  induction s as [|c s [w [Hw IH]]]; simpl.
  - exists []. split; [constructor|reflexivity].
  - destruct (is_ws c) eqn:E.
    + exists (c :: w). split; [now constructor|]. simpl. now rewrite <- IH.
    + exists []. split; [constructor|reflexivity].
Qed.

Lemma skip_ws_length (s : pystr) : (length (skip_ws s) <= length s)%nat.
Proof.
  destruct (skip_ws_split s) as [w [_ H]].
  rewrite H at 2. rewrite length_app. lia.
Qed.

Lemma skip_ws_head (s t : pystr) (c : N) :
  skip_ws s = c :: t -> is_ws c = false.
Proof.
  induction s as [|x s IH]; simpl; [discriminate|].
  destruct (is_ws x) eqn:E; [assumption|].
  intros H. injection H as -> _. assumption.
Qed.

Lemma skip_ws_blank (w : pystr) : blank w -> skip_ws w = [].
Proof.
  induction 1 as [|c w Hc _ IH]; simpl; [reflexivity|]. now rewrite Hc.
Qed.

Lemma skip_ws_nil_blank (s : pystr) : skip_ws s = [] -> blank s.
Proof.
  intros H. destruct (skip_ws_split s) as [w [Hw E]].
  rewrite H, app_nil_r in E. now subst.
Qed.

Lemma skip_ws_solid (c : N) (s : pystr) :
  is_ws c = false -> skip_ws (c :: s) = c :: s.
Proof. intros H. simpl. now rewrite H. Qed.

(** White space after a text is skipped only when the text is blank. *)
Lemma skip_ws_app (s w : pystr) :
  blank w ->
  skip_ws (s ++ w) = match skip_ws s with [] => [] | x :: t => x :: t ++ w end.
Proof.
  intros Hw. induction s as [|c s IH]; simpl.
  - now apply skip_ws_blank.
  - destruct (is_ws c); [assumption|reflexivity].
Qed.

(** ** What a scan consumes *)

Lemma ends_cons (c : N) (s r : pystr) : ends s r -> ends (c :: s) r.
Proof. intros [pre [e [-> He]]]. now exists (c :: pre), e. Qed.

Lemma ends_app (p s r : pystr) : ends s r -> ends (p ++ s) r.
Proof.
  intros [pre [e [-> He]]]. exists (p ++ pre), e.
  now rewrite <- app_assoc.
Qed.

Lemma ends_skip_ws (s r : pystr) : ends (skip_ws s) r -> ends s r.
Proof.
  intros H. destruct (skip_ws_split s) as [w [_ E]].
  rewrite E. now apply ends_app.
Qed.

Lemma ends_length (s r : pystr) : ends s r -> (length r < length s)%nat.
Proof.
  intros [pre [e [-> _]]]. rewrite length_app. simpl. lia.
Qed.

Lemma ends_trans (s m r : pystr) : ends s m -> ends m r -> ends s r.
Proof.
  intros [pre [e [-> _]]] H.
  change (pre ++ e :: m) with (pre ++ [e] ++ m). rewrite app_assoc.
  now apply ends_app.
Qed.

Lemma ends_here (e : N) (r : pystr) : solid e -> ends (e :: r) r.
Proof. intros H. now exists [], e. Qed.

Lemma scan_items_ends (s : pystr) :
  forall st items r, scan_items st s = Some (items, r) -> ends s r.
Proof.
  induction s as [|c s IH]; intros st items r H; simpl in H; [discriminate|].
  destruct st.
  - destruct (N.eqb_spec c 34) as [-> | _].
    { injection H as _ <-. apply ends_here. solid_char. }
    destruct (c =? 92); [apply ends_cons; eauto|].
    destruct (c <? 32); [discriminate|].
    destruct (scan_items Plain s) as [[i r']|] eqn:E; [|discriminate].
    injection H as _ <-. apply ends_cons; eauto.
  - destruct (c =? 117); [apply ends_cons; eauto|].
    destruct (backslash c); [|discriminate].
    destruct (scan_items Plain s) as [[i r']|] eqn:E; [|discriminate].
    injection H as _ <-. apply ends_cons; eauto.
  - destruct (hexval c); [|discriminate].
    destruct more as [|[|more]]; [discriminate| |apply ends_cons; eauto].
    destruct (scan_items Plain s) as [[i r']|] eqn:E; [|discriminate].
    injection H as _ <-. apply ends_cons; eauto.
Qed.

Lemma scanstring_ends (s str r : pystr) :
  scanstring s = Some (str, r) -> ends s r.
Proof.
  unfold scanstring. destruct (scan_items Plain s) as [[i r']|] eqn:E; [|discriminate].
  intros H. injection H as _ <-. eapply scan_items_ends; eauto.
Qed.

(** *** Numbers *)

Lemma digit_end_cons (c : N) (m : pystr) :
  is_digit c = true -> digit_end m -> exists m' d, c :: m = m' ++ [d] /\ is_digit d = true.
Proof.
  intros Hc [-> | [m' [d [-> Hd]]]].
  - now exists [], c.
  - now exists (c :: m'), d.
Qed.

Lemma digits_spec (s : pystr) :
  forall ds r, digits s = (ds, r) -> s = ds ++ r /\ digit_end ds.
Proof.
  induction s as [|c s IH]; intros ds r H; simpl in H.
  - injection H as <- <-. split; [reflexivity|now left].
  - destruct (is_digit c) eqn:E.
    + destruct (digits s) as [ds' r'] eqn:D. injection H as <- <-.
      destruct (IH _ _ eq_refl) as [-> Hd]. split; [reflexivity|].
      right. now apply digit_end_cons.
    + injection H as <- <-. split; [reflexivity|now left].
Qed.

Lemma int_group_spec (s m r : pystr) :
  int_group s = Some (m, r) ->
  s = m ++ r /\ (exists m' d, m = m' ++ [d] /\ is_digit d = true)
  /\ (exists c t, s = c :: t /\ (c = 45 \/ is_digit c = true)).
Proof.
  unfold int_group. intros H.
  assert (forall sign s1, (sign = [] \/ sign = [45]) ->
            match s1 with
            | [] => None
            | c :: t =>
                if c =? 48 then Some (sign ++ [c], t)
                else if is_digit c then let (ds, r) := digits t in Some (sign ++ c :: ds, r)
                else None
            end = Some (m, r) ->
            sign ++ s1 = m ++ r
            /\ (exists m' d, m = m' ++ [d] /\ is_digit d = true)
            /\ (exists c t, s1 = c :: t /\ is_digit c = true)) as core.
  { intros sign s1 Hs K. destruct s1 as [|c t]; [discriminate|].
    destruct (N.eqb_spec c 48) as [-> | _].
    - injection K as <- <-. rewrite <- app_assoc. split; [reflexivity|].
      split; [now exists sign, 48 | now exists 48, t].
    - destruct (is_digit c) eqn:E; [|discriminate].
      destruct (digits t) as [ds r'] eqn:D. injection K as <- <-.
      destruct (digits_spec _ _ _ D) as [-> Hd]. rewrite <- app_assoc. split; [reflexivity|].
      split; [|now exists c, (ds ++ r')].
      destruct (digit_end_cons _ _ E Hd) as [m' [d [Em Hd']]].
      exists (sign ++ m'), d. rewrite Em, app_assoc. now split. }
  destruct s as [|c t]; [discriminate|].
  destruct (N.eqb_spec c 45) as [-> | _].
  - destruct (core [45] t (or_intror eq_refl) H) as [E [L _]].
    split; [exact E|]. split; [exact L|]. exists 45, t. auto.
  - destruct (core [] (c :: t) (or_introl eq_refl) H) as [E [L [c' [t' [Ec Hc]]]]].
    split; [exact E|]. split; [exact L|]. exists c', t'. auto.
Qed.

Lemma frac_group_spec (s m r : pystr) :
  frac_group s = (m, r) -> s = m ++ r /\ digit_end m.
Proof.
  unfold frac_group. intros H.
  destruct s as [|dot [|d t]]; try (injection H as <- <-; split; [reflexivity|now left]).
  destruct ((dot =? 46) && is_digit d) eqn:E.
  - apply andb_prop in E as [_ Ed].
    destruct (digits t) as [ds r'] eqn:D. injection H as <- <-.
    destruct (digits_spec _ _ _ D) as [-> Hd]. split; [reflexivity|].
    right. destruct (digit_end_cons _ _ Ed Hd) as [m' [d' [Em Hd']]].
    exists (dot :: m'), d'. now rewrite Em.
  - injection H as <- <-. split; [reflexivity|now left].
Qed.

Lemma exp_group_spec (s m r : pystr) :
  exp_group s = (m, r) -> s = m ++ r /\ digit_end m.
Proof.
  unfold exp_group. intros H.
  assert (([] : pystr, s) = (m, r) -> s = m ++ r /\ digit_end m) as none.
  { intros K. injection K as <- <-. split; [reflexivity|now left]. }
  destruct s as [|e t]; [now apply none|].
  destruct ((e =? 101) || (e =? 69)); [|now apply none].
  assert (forall sign t1,
            e :: t = e :: sign ++ t1 ->
            match t1 with
            | d :: t2 =>
                if is_digit d
                then let (ds, r) := digits t2 in (e :: sign ++ d :: ds, r)
                else ([], e :: t)
            | [] => ([], e :: t)
            end = (m, r) -> e :: t = m ++ r /\ digit_end m) as core.
  { intros sign t1 Et K. destruct t1 as [|d t2]; [now apply none|].
    destruct (is_digit d) eqn:Ed; [|now apply none].
    destruct (digits t2) as [ds r'] eqn:D. injection K as <- <-.
    destruct (digits_spec _ _ _ D) as [-> Hd]. split.
    - rewrite Et. simpl. now rewrite <- app_assoc.
    - right. destruct (digit_end_cons _ _ Ed Hd) as [m' [d' [Em Hd']]].
      exists (e :: sign ++ m'), d'. rewrite Em. simpl. now rewrite <- app_assoc. }
  destruct t as [|c t']; [now apply (core [] [])|].
  destruct ((c =? 45) || (c =? 43)).
  - now apply (core [c] t').
  - now apply (core [] (c :: t')).
Qed.

Lemma match_number_spec (s r : pystr) (v : pyval) :
  match_number s = Some (v, r) ->
  ends s r /\ exists c t, s = c :: t /\ (c = 45 \/ is_digit c = true).
Proof.
  unfold match_number. intros H.
  destruct (int_group s) as [[m r0]|] eqn:I; [|discriminate].
  destruct (frac_group r0) as [f r1] eqn:F.
  destruct (exp_group r1) as [e r2] eqn:X.
  destruct (int_group_spec _ _ _ I) as [Es [[m' [d [Em Hd]]] Hhead]].
  destruct (frac_group_spec _ _ _ F) as [Er0 Hf].
  destruct (exp_group_spec _ _ _ X) as [Er1 He].
  split; [|exact Hhead].
  assert (r = r2) as -> by (destruct f, e; now injection H).
  assert (exists p z, m ++ f ++ e = p ++ [z] /\ is_digit z = true) as [p [z [Ep Hz]]].
  { destruct He as [-> | [e' [z [-> Hz]]]].
    - rewrite app_nil_r. destruct Hf as [-> | [f' [z [-> Hz]]]].
      + rewrite app_nil_r. now exists m', d.
      + exists (m ++ f'), z. now rewrite app_assoc.
    - exists (m ++ f ++ e'), z. now rewrite !app_assoc. }
  exists p, z. split; [|now apply digit_solid].
  rewrite Es, Er0, Er1.
  change (p ++ z :: r2) with (p ++ [z] ++ r2).
  now rewrite (app_assoc p), <- Ep, <- !app_assoc.
Qed.

End JsonFacts.

(* ================================================================== *)
(** * The shape of an accepted text *)
(* ================================================================== *)

Module ScanFacts.

Import Str Val Json StrFacts JsonFacts.
Local Open Scope N_scope.

Lemma startswith_first (c a : N) (s p : pystr) :
  startswith (c :: s) (a :: p) = true -> c = a.
Proof. simpl. intros H. apply andb_prop in H as [H _]. now apply N.eqb_eq. Qed.

Lemma literal_ends (s pre : pystr) (e : N) :
  startswith s (pre ++ [e]) = true -> solid e ->
  ends s (skipn (S (length pre)) s).
Proof.
  intros H He. apply startswith_inv in H as [t ->].
  exists pre, e. split; [|assumption].
  replace (S (length pre)) with (length (pre ++ [e]))
    by (rewrite length_app; simpl; lia).
  rewrite skipn_app, skipn_all, Nat.sub_diag. simpl.
  now rewrite <- app_assoc.
Qed.

Lemma scan_atom_shape (s r : pystr) (v : pyval) :
  scan_atom s = Some (v, r) ->
  ends s r /\ exists c t, s = c :: t /\ solid c.
Proof.
  unfold scan_atom. intros H.
  destruct s as [|c s'].
  { simpl in H. discriminate. }
  assert (forall a, c = a -> solid a -> exists c0 t, c :: s' = c0 :: t /\ solid c0) as head.
  { intros a -> Ha. now exists a, s'. }
  destruct (startswith (c :: s') (py "null")) eqn:E1.
  { injection H as <- <-. split.
    - apply (literal_ends (c :: s') (py "nul") 108 E1). solid_char.
    - apply (head 110); [|solid_char].
      apply (startswith_first c 110 s' (py "ull") E1). }
  destruct (startswith (c :: s') (py "true")) eqn:E2.
  { injection H as <- <-. split.
    - apply (literal_ends (c :: s') (py "tru") 101 E2). solid_char.
    - apply (head 116); [|solid_char].
      apply (startswith_first c 116 s' (py "rue") E2). }
  destruct (startswith (c :: s') (py "false")) eqn:E3.
  { injection H as <- <-. split.
    - apply (literal_ends (c :: s') (py "fals") 101 E3). solid_char.
    - apply (head 102); [|solid_char].
      apply (startswith_first c 102 s' (py "alse") E3). }
  destruct (match_number (c :: s')) as [[v' r']|] eqn:E4.
  { injection H as <- <-.
    destruct (match_number_spec _ _ _ E4) as [He [c0 [t [Ec Hc]]]].
    split; [exact He|]. exists c0, t. split; [exact Ec|].
    destruct Hc as [-> | Hd]; [solid_char|now apply digit_solid]. }
  destruct (startswith (c :: s') (py "NaN")) eqn:E5.
  { injection H as <- <-. split.
    - apply (literal_ends (c :: s') (py "Na") 78 E5). solid_char.
    - apply (head 78); [|solid_char].
      apply (startswith_first c 78 s' (py "aN") E5). }
  destruct (startswith (c :: s') (py "Infinity")) eqn:E6.
  { injection H as <- <-. split.
    - apply (literal_ends (c :: s') (py "Infinit") 121 E6). solid_char.
    - apply (head 73); [|solid_char].
      apply (startswith_first c 73 s' (py "nfinity") E6). }
  destruct (startswith (c :: s') (py "-Infinity")) eqn:E7; [|discriminate].
  injection H as <- <-. split.
  + apply (literal_ends (c :: s') (py "-Infinit") 121 E7). solid_char.
  + apply (head 45); [|solid_char].
    apply (startswith_first c 45 s' (py "Infinity") E7).
Qed.

(** Every successful scan consumes a text that starts and ends with a
    solid character. *)
Lemma scan_shape (fuel : nat) :
  (forall s v r, scan_once fuel s = Some (v, r) ->
     ends s r /\ exists c t, s = c :: t /\ solid c)
  /\ (forall s ps r, object_members fuel s = Some (ps, r) -> ends s r)
  /\ (forall s vs r, array_elements fuel s = Some (vs, r) -> ends s r).
Proof.
  induction fuel as [|fuel [IHscan [IHobj IHarr]]].
  { repeat split; intros; discriminate. }
  split; [|split].
  - intros s v r H. cbn [scan_once] in H.
    destruct s as [|c s']; [discriminate|].
    assert (forall a, c = a -> solid a -> exists c0 t, c :: s' = c0 :: t /\ solid c0) as head.
    { intros a -> Ha. now exists a, s'. }
    destruct (N.eqb_spec c 34) as [-> | _].
    { destruct (scanstring s') as [[str r']|] eqn:E; [|discriminate].
      injection H as <- <-. split; [|apply (head 34); [reflexivity|solid_char]].
      apply ends_cons, (scanstring_ends _ _ _ E). }
    destruct (N.eqb_spec c 123) as [-> | _].
    { split; [|apply (head 123); [reflexivity|solid_char]].
      apply ends_cons, ends_skip_ws.
      destruct (skip_ws s') as [|c t]; [discriminate|].
      destruct (N.eqb_spec c 125) as [-> | _].
      { injection H as <- <-. apply ends_here. solid_char. }
      destruct (c =? 34); [|discriminate].
      destruct (object_members fuel t) as [[ps r']|] eqn:E; [|discriminate].
      injection H as <- <-. apply ends_cons. eauto. }
    destruct (N.eqb_spec c 91) as [-> | _].
    { split; [|apply (head 91); [reflexivity|solid_char]].
      apply ends_cons, ends_skip_ws.
      destruct (skip_ws s') as [|c t]; [discriminate|].
      destruct (N.eqb_spec c 93) as [-> | _].
      { injection H as <- <-. apply ends_here. solid_char. }
      destruct (array_elements fuel (c :: t)) as [[vs r']|] eqn:E; [|discriminate].
      injection H as <- <-. eauto. }
    apply (scan_atom_shape _ _ _ H).
  - intros s ps r H. cbn [object_members] in H.
    destruct (scanstring s) as [[key r0]|] eqn:K; [|discriminate].
    apply (ends_trans _ _ _ (scanstring_ends _ _ _ K)). apply ends_skip_ws.
    destruct (skip_ws r0) as [|colon r1]; [discriminate|].
    destruct (colon =? 58); [|discriminate].
    destruct (scan_once fuel (skip_ws r1)) as [[value r2]|] eqn:V; [|discriminate].
    apply ends_cons, ends_skip_ws.
    destruct (IHscan _ _ _ V) as [He _]. apply (ends_trans _ _ _ He). apply ends_skip_ws.
    destruct (skip_ws r2) as [|c r3]; [discriminate|].
    destruct (N.eqb_spec c 125) as [-> | _].
    { injection H as <- <-. apply ends_here. solid_char. }
    destruct (c =? 44); [|discriminate].
    apply ends_cons, ends_skip_ws.
    destruct (skip_ws r3) as [|q r4]; [discriminate|].
    destruct (q =? 34); [|discriminate].
    destruct (object_members fuel r4) as [[pairs r5]|] eqn:M; [|discriminate].
    injection H as <- <-. apply ends_cons. eauto.
  - intros s vs r H. cbn [array_elements] in H.
    destruct (scan_once fuel s) as [[value r0]|] eqn:V; [|discriminate].
    destruct (IHscan _ _ _ V) as [He _]. apply (ends_trans _ _ _ He). apply ends_skip_ws.
    destruct (skip_ws r0) as [|c r1]; [discriminate|].
    destruct (N.eqb_spec c 93) as [-> | _].
    { injection H as <- <-. apply ends_here. solid_char. }
    destruct (c =? 44); [|discriminate].
    destruct (array_elements fuel (skip_ws r1)) as [[values r2]|] eqn:A; [|discriminate].
    injection H as <- <-. apply ends_cons, ends_skip_ws. eauto.
Qed.

(** A text [json.loads] accepts: white space, a part that starts and
    ends with a solid character, white space. *)
Lemma json_loads_shape (s : pystr) (v : pyval) :
  json_loads s = Some v ->
  exists w1 mid w2 a z,
    s = w1 ++ mid ++ w2 /\ blank w1 /\ blank w2
    /\ solid a /\ solid z
    /\ (exists m, mid = a :: m) /\ (exists m, mid = m ++ [z])
    /\ scan_once (2 * length s + 1) (mid ++ w2) = Some (v, w2).
Proof.
  unfold json_loads. intros H.
  destruct (scan_once (2 * length s + 1) (skip_ws s)) as [[v' r]|] eqn:E; [|discriminate].
  destruct (skip_ws r) eqn:R; [|discriminate]. injection H as ->.
  destruct (skip_ws_split s) as [w1 [Hw1 Es]].
  destruct (proj1 (scan_shape _) _ _ _ E) as [[pre [z [Ez Hz]]] [a [t [Ea Ha]]]].
  exists w1, (pre ++ [z]), r, a, z.
  assert (skip_ws s = (pre ++ [z]) ++ r) as Emid by (now rewrite <- app_assoc).
  split; [now rewrite <- Emid|].
  split; [assumption|].
  split; [now apply skip_ws_nil_blank|].
  split; [assumption|]. split; [assumption|].
  split; [|split; [now exists pre | now rewrite <- Emid]].
  destruct pre as [|p pre]; simpl in *.
  - exists []. congruence.
  - exists (pre ++ [z]). congruence.
Qed.

End ScanFacts.

(* ================================================================== *)
(** * White space after a text *)
(* ================================================================== *)

Module TrimFacts.

Import Str Val Json StrFacts JsonFacts ScanFacts.
Local Open Scope N_scope.

(** ** White space after a text *)

Lemma blank_head (c : N) (w : pystr) : blank (c :: w) -> is_ws c = true /\ blank w.
Proof. intros H. inversion H; subst. now split. Qed.

Lemma scan_items_blank (w : pystr) :
  blank w -> forall st, scan_items st w = None.
Proof.
  induction 1 as [|c w Hc _ IH]; intros st; [reflexivity|].
  simpl. rewrite (hexval_ws _ Hc).
  destruct (is_ws_cases _ Hc) as [-> | [-> | [-> | ->]]];
    destruct st; simpl; try reflexivity; now rewrite IH.
Qed.

Lemma push_with_rest (i : item) (w : pystr) (o : option (list item * pystr)) :
  push i (with_rest w o) = with_rest w (push i o).
Proof. now destruct o as [[? ?]|]. Qed.

Lemma scan_items_trim (w : pystr) :
  blank w ->
  forall s st, scan_items st (s ++ w) = with_rest w (scan_items st s).
Proof.
  intros Hw. induction s as [|c s IH]; intros st.
  - simpl. now rewrite scan_items_blank.
  - simpl. destruct st.
    + destruct (c =? 34); [reflexivity|].
      destruct (c =? 92); [apply IH|].
      destruct (c <? 32); [reflexivity|].
      now rewrite IH, push_with_rest.
    + destruct (c =? 117); [apply IH|].
      destruct (backslash c); [|reflexivity].
      now rewrite IH, push_with_rest.
    + destruct (hexval c); [|reflexivity].
      destruct more as [|[|more]]; [reflexivity| |apply IH].
      now rewrite IH, push_with_rest.
Qed.

Lemma scanstring_trim (w s : pystr) :
  blank w -> scanstring (s ++ w) = with_rest w (scanstring s).
Proof.
  intros Hw. unfold scanstring. rewrite scan_items_trim by assumption.
  now destruct (scan_items Plain s) as [[? ?]|].
Qed.

Lemma digits_blank (w : pystr) : blank w -> digits w = ([], w).
Proof.
  destruct 1 as [|c w Hc _]; [reflexivity|].
  simpl. now rewrite (digit_not_ws _ Hc).
Qed.

Lemma digits_trim (w s : pystr) :
  blank w -> digits (s ++ w) = let (ds, r) := digits s in (ds, r ++ w).
Proof.
  intros Hw. induction s as [|c s IH]; simpl.
  - now apply digits_blank.
  - destruct (is_digit c); [|reflexivity].
    rewrite IH. now destruct (digits s).
Qed.

Lemma int_group_trim (w s : pystr) :
  blank w -> int_group (s ++ w) = with_rest w (int_group s).
Proof.
  intros Hw.
  assert (forall sign s1,
            match s1 ++ w with
            | [] => None
            | c :: t =>
                if c =? 48 then Some (sign ++ [c], t)
                else if is_digit c then let (ds, r) := digits t in Some (sign ++ c :: ds, r)
                else None
            end
            = with_rest w
                match s1 with
                | [] => None
                | c :: t =>
                    if c =? 48 then Some (sign ++ [c], t)
                    else if is_digit c then let (ds, r) := digits t in Some (sign ++ c :: ds, r)
                    else None
                end) as core.
  { intros sign [|c t]; simpl.
    - destruct Hw as [|c w Hc _]; [reflexivity|].
      rewrite (digit_not_ws _ Hc).
      destruct (is_ws_cases _ Hc) as [-> | [-> | [-> | ->]]]; reflexivity.
    - destruct (c =? 48); [reflexivity|].
      destruct (is_digit c); [|reflexivity].
      rewrite digits_trim by assumption. now destruct (digits t). }
  unfold int_group. destruct s as [|c t].
  - destruct Hw as [|c w Hc Hw]; [reflexivity|].
    cbn [app].
    replace (c =? 45) with false
      by (destruct (is_ws_cases _ Hc) as [-> | [-> | [-> | ->]]]; reflexivity).
    apply (core [] []).
  - cbn [app]. destruct (c =? 45).
    + apply (core [c] t).
    + apply (core [] (c :: t)).
Qed.

Lemma frac_group_trim (w s : pystr) :
  blank w -> frac_group (s ++ w) = let (m, r) := frac_group s in (m, r ++ w).
Proof.
  intros Hw. unfold frac_group. destruct s as [|dot [|d t]]; cbn [app].
  - destruct Hw as [|c w Hc Hw]; [reflexivity|].
    destruct w as [|d w]; [reflexivity|].
    replace (c =? 46) with false
      by (destruct (is_ws_cases _ Hc) as [-> | [-> | [-> | ->]]]; reflexivity).
    reflexivity.
  - destruct Hw as [|c w Hc Hw]; [reflexivity|].
    rewrite (digit_not_ws _ Hc), andb_false_r. reflexivity.
  - destruct ((dot =? 46) && is_digit d); [|reflexivity].
    rewrite digits_trim by assumption. now destruct (digits t).
Qed.

Lemma exp_group_trim (w s : pystr) :
  blank w -> exp_group (s ++ w) = let (m, r) := exp_group s in (m, r ++ w).
Proof.
  intros Hw. unfold exp_group. destruct s as [|e t]; cbn [app].
  - destruct Hw as [|c w Hc Hw]; [reflexivity|].
    replace ((c =? 101) || (c =? 69)) with false
      by (destruct (is_ws_cases _ Hc) as [-> | [-> | [-> | ->]]]; reflexivity).
    reflexivity.
  - destruct ((e =? 101) || (e =? 69)); [|reflexivity].
    assert (forall sign t1,
              match t1 ++ w with
              | d :: t2 =>
                  if is_digit d
                  then let (ds, r) := digits t2 in (e :: sign ++ d :: ds, r)
                  else ([], e :: t ++ w)
              | [] => ([], e :: t ++ w)
              end
              = let (m, r) :=
                  match t1 with
                  | d :: t2 =>
                      if is_digit d
                      then let (ds, r) := digits t2 in (e :: sign ++ d :: ds, r)
                      else ([], e :: t)
                  | [] => ([], e :: t)
                  end in (m, r ++ w)) as core.
    { intros sign [|d t2]; cbn [app].
      - destruct Hw as [|c w Hc Hw]; [reflexivity|].
        now rewrite (digit_not_ws _ Hc).
      - destruct (is_digit d); [|reflexivity].
        rewrite digits_trim by assumption. now destruct (digits t2). }
    destruct t as [|c t']; cbn [app].
    + destruct Hw as [|c w Hc Hw]; [reflexivity|].
      replace ((c =? 45) || (c =? 43)) with false
        by (destruct (is_ws_cases _ Hc) as [-> | [-> | [-> | ->]]]; reflexivity).
      apply (core [] []).
    + destruct ((c =? 45) || (c =? 43)).
      * apply (core [c] t').
      * apply (core [] (c :: t')).
Qed.

Lemma match_number_trim (w s : pystr) :
  blank w -> match_number (s ++ w) = with_rest w (match_number s).
Proof.
  intros Hw. unfold match_number. rewrite int_group_trim by assumption.
  destruct (int_group s) as [[m r0]|]; [|reflexivity]. simpl.
  rewrite frac_group_trim by assumption. destruct (frac_group r0) as [f r1].
  rewrite exp_group_trim by assumption. destruct (exp_group r1) as [e r2].
  now destruct f, e.
Qed.

(** A literal free of white space is found, or not, whatever white
    space follows the text. *)
Lemma startswith_trim (w p : pystr) :
  blank w -> Forall (fun c => is_ws c = false) p ->
  forall s, startswith (s ++ w) p = startswith s p.
Proof.
  intros Hw. induction 1 as [|a p Ha _ IH]; intros s; [reflexivity|].
  destruct s as [|c s]; simpl.
  - destruct Hw as [|c w Hc _]; [reflexivity|].
    destruct (N.eqb_spec c a) as [-> | _]; [congruence|reflexivity].
  - now rewrite IH.
Qed.

Lemma skipn_trim (w p s : pystr) (n : nat) :
  n = length p -> startswith s p = true ->
  skipn n (s ++ w) = skipn n s ++ w.
Proof.
  intros -> H. apply startswith_inv in H as [t ->].
  rewrite <- app_assoc, !skipn_app, !skipn_all, Nat.sub_diag. reflexivity.
Qed.

End TrimFacts.

(* ================================================================== *)
(** * Fuel, and json.loads after strip *)
(* ================================================================== *)

Module FuelFacts.

Import Str Val Json StrFacts JsonFacts ScanFacts TrimFacts.
Local Open Scope N_scope.

Ltac no_ws := repeat constructor.

Lemma scan_atom_trim (w s : pystr) :
  blank w -> scan_atom (s ++ w) = with_rest w (scan_atom s).
Proof.
  intros Hw. unfold scan_atom.
  rewrite !(startswith_trim w) by (assumption || no_ws).
  rewrite match_number_trim by assumption.
  destruct (startswith s (py "null")) eqn:E1.
  { cbn [with_rest]. now rewrite (skipn_trim w (py "null") s 4 eq_refl E1). }
  destruct (startswith s (py "true")) eqn:E2.
  { cbn [with_rest]. now rewrite (skipn_trim w (py "true") s 4 eq_refl E2). }
  destruct (startswith s (py "false")) eqn:E3.
  { cbn [with_rest]. now rewrite (skipn_trim w (py "false") s 5 eq_refl E3). }
  destruct (match_number s) as [[v r]|]; [reflexivity|]. cbn [with_rest].
  destruct (startswith s (py "NaN")) eqn:E5.
  { cbn [with_rest]. now rewrite (skipn_trim w (py "NaN") s 3 eq_refl E5). }
  destruct (startswith s (py "Infinity")) eqn:E6.
  { cbn [with_rest]. now rewrite (skipn_trim w (py "Infinity") s 8 eq_refl E6). }
  destruct (startswith s (py "-Infinity")) eqn:E7; [|reflexivity].
  cbn [with_rest]. now rewrite (skipn_trim w (py "-Infinity") s 9 eq_refl E7).
Qed.

Lemma scan_once_blank (fuel : nat) (w : pystr) :
  blank w -> scan_once fuel w = None.
Proof.
  intros Hw. destruct (scan_once fuel w) as [[v r]|] eqn:E; [|reflexivity].
  destruct (proj1 (scan_shape fuel) _ _ _ E) as [_ [c [t [-> Hc]]]].
  apply blank_head in Hw as [Hws _]. now apply is_ws_not_solid in Hws.
Qed.

(** White space after a text changes nothing to its scan but what is
    left. *)
Lemma scan_trim (w : pystr) (fuel : nat) :
  blank w ->
  (forall s, scan_once fuel (s ++ w) = with_rest w (scan_once fuel s))
  /\ (forall s, object_members fuel (s ++ w) = with_rest w (object_members fuel s))
  /\ (forall s, array_elements fuel (s ++ w) = with_rest w (array_elements fuel s)).
Proof.
  intros Hw. induction fuel as [|fuel [IHscan [IHobj IHarr]]].
  { repeat split; intros; reflexivity. }
  split; [|split].
  - intros s. destruct s as [|c s'].
    { cbn [app]. now rewrite scan_once_blank. }
    change (scan_once (S fuel) ((c :: s') ++ w)) with
      (if c =? 34 then
         match scanstring (s' ++ w) with
         | Some (str, r) => Some (PyStr str, r)
         | None => None
         end
       else if c =? 123 then
         match skip_ws (s' ++ w) with
         | c0 :: t =>
             if c0 =? 125 then Some (PyDict [], t)
             else if c0 =? 34 then
               match object_members fuel t with
               | Some (pairs, r) => Some (PyDict (dict_of_pairs pairs), r)
               | None => None
               end
             else None
         | [] => None
         end
       else if c =? 91 then
         match skip_ws (s' ++ w) with
         | c0 :: t =>
             if c0 =? 93 then Some (PyList [], t)
             else
               match array_elements fuel (c0 :: t) with
               | Some (values, r) => Some (PyList values, r)
               | None => None
               end
         | [] => None
         end
       else scan_atom ((c :: s') ++ w)).
    cbn [scan_once].
    destruct (c =? 34).
    { rewrite scanstring_trim by assumption.
      now destruct (scanstring s') as [[? ?]|]. }
    destruct (c =? 123).
    { rewrite skip_ws_app by assumption.
      destruct (skip_ws s') as [|c0 t]; [reflexivity|].
      destruct (c0 =? 125); [reflexivity|].
      destruct (c0 =? 34); [|reflexivity].
      rewrite IHobj. now destruct (object_members fuel t) as [[? ?]|]. }
    destruct (c =? 91).
    { rewrite skip_ws_app by assumption.
      destruct (skip_ws s') as [|c0 t]; [reflexivity|].
      destruct (c0 =? 93); [reflexivity|].
      change (c0 :: t ++ w) with ((c0 :: t) ++ w).
      rewrite IHarr. now destruct (array_elements fuel (c0 :: t)) as [[? ?]|]. }
    now apply scan_atom_trim.
  - intros s. cbn [object_members].
    rewrite scanstring_trim by assumption.
    destruct (scanstring s) as [[key r]|]; [|reflexivity]. cbn [with_rest].
    rewrite skip_ws_app by assumption.
    destruct (skip_ws r) as [|colon r1]; [reflexivity|].
    destruct (colon =? 58); [|reflexivity].
    rewrite skip_ws_app by assumption.
    destruct (skip_ws r1) as [|x r1'] eqn:R1.
    { destruct (scan_once fuel []) as [[v0 r0]|] eqn:E; [|reflexivity].
      destruct (proj1 (scan_shape fuel) _ _ _ E) as [_ [c0 [t0 [K _]]]]. discriminate. }
    change (x :: r1' ++ w) with ((x :: r1') ++ w). rewrite IHscan.
    destruct (scan_once fuel (x :: r1')) as [[value r2]|]; [|reflexivity].
    cbn [with_rest]. rewrite skip_ws_app by assumption.
    destruct (skip_ws r2) as [|c r3]; [reflexivity|].
    destruct (c =? 125); [reflexivity|].
    destruct (c =? 44); [|reflexivity].
    rewrite skip_ws_app by assumption.
    destruct (skip_ws r3) as [|q r4]; [reflexivity|].
    destruct (q =? 34); [|reflexivity].
    rewrite IHobj. now destruct (object_members fuel r4) as [[? ?]|].
  - intros s. cbn [array_elements]. rewrite IHscan.
    destruct (scan_once fuel s) as [[value r]|]; [|reflexivity].
    cbn [with_rest]. rewrite skip_ws_app by assumption.
    destruct (skip_ws r) as [|c r1]; [reflexivity|].
    destruct (c =? 93); [reflexivity|].
    destruct (c =? 44); [|reflexivity].
    rewrite skip_ws_app by assumption.
    destruct (skip_ws r1) as [|x r1'] eqn:R1.
    { destruct (array_elements fuel []) as [[v0 r0]|] eqn:E; [|reflexivity].
      apply (proj2 (proj2 (scan_shape fuel))) in E. apply ends_length in E.
      simpl in E. lia. }
    change (x :: r1' ++ w) with ((x :: r1') ++ w). rewrite IHarr.
    now destruct (array_elements fuel (x :: r1')) as [[? ?]|].
Qed.

(** ** Fuel *)

Lemma skip_ws_cons_length (s t : pystr) (c : N) :
  skip_ws s = c :: t -> (length t < length s)%nat.
Proof.
  intros H. pose proof (skip_ws_length s) as L. rewrite H in L. simpl in L. lia.
Qed.

Lemma scan_once_length (fuel : nat) (s r : pystr) (v : pyval) :
  scan_once fuel s = Some (v, r) -> (length r < length s)%nat.
Proof.
  intros H. apply (proj1 (scan_shape fuel)) in H as [H _]. now apply ends_length.
Qed.

Lemma scanstring_length (s str r : pystr) :
  scanstring s = Some (str, r) -> (length r < length s)%nat.
Proof. intros H. apply scanstring_ends in H. now apply ends_length. Qed.

(** Two amounts of fuel above twice the length of the text give the
    same result. *)
Lemma scan_fuel_enough (fuel : nat) :
  forall fuel',
    (forall s, (2 * length s + 1 <= fuel)%nat -> (2 * length s + 1 <= fuel')%nat ->
       scan_once fuel s = scan_once fuel' s)
    /\ (forall s, (2 * length s + 2 <= fuel)%nat -> (2 * length s + 2 <= fuel')%nat ->
          object_members fuel s = object_members fuel' s)
    /\ (forall s, (2 * length s + 2 <= fuel)%nat -> (2 * length s + 2 <= fuel')%nat ->
          array_elements fuel s = array_elements fuel' s).
Proof.
  induction fuel as [|fuel IH]; intros fuel'.
  { repeat split; intros; lia. }
  destruct fuel' as [|fuel'].
  { repeat split; intros; lia. }
  destruct (IH fuel') as [IHscan [IHobj IHarr]].
  split; [|split].
  - intros s Hs Hs'. destruct s as [|c s']; [reflexivity|].
    cbn [scan_once]. cbn [length] in Hs, Hs'.
    destruct (c =? 34); [reflexivity|].
    destruct (c =? 123).
    { destruct (skip_ws s') as [|c0 t] eqn:K; [reflexivity|].
      apply skip_ws_cons_length in K.
      destruct (c0 =? 125); [reflexivity|].
      destruct (c0 =? 34); [|reflexivity].
      rewrite (IHobj t) by lia. reflexivity. }
    destruct (c =? 91); [|reflexivity].
    destruct (skip_ws s') as [|c0 t] eqn:K; [reflexivity|].
    apply skip_ws_cons_length in K.
    destruct (c0 =? 93); [reflexivity|].
    rewrite (IHarr (c0 :: t)) by (cbn [length]; lia). reflexivity.
  - intros s Hs Hs'. cbn [object_members].
    destruct (scanstring s) as [[key r]|] eqn:K; [|reflexivity].
    apply scanstring_length in K.
    destruct (skip_ws r) as [|colon r1] eqn:R; [reflexivity|].
    apply skip_ws_cons_length in R.
    destruct (colon =? 58); [|reflexivity].
    pose proof (skip_ws_length r1) as L1.
    rewrite (IHscan (skip_ws r1)) by lia.
    destruct (scan_once fuel' (skip_ws r1)) as [[value r2]|] eqn:V; [|reflexivity].
    apply scan_once_length in V.
    destruct (skip_ws r2) as [|c r3] eqn:R2; [reflexivity|].
    apply skip_ws_cons_length in R2.
    destruct (c =? 125); [reflexivity|].
    destruct (c =? 44); [|reflexivity].
    destruct (skip_ws r3) as [|q r4] eqn:R3; [reflexivity|].
    apply skip_ws_cons_length in R3.
    destruct (q =? 34); [|reflexivity].
    rewrite (IHobj r4) by lia. reflexivity.
  - intros s Hs Hs'. cbn [array_elements].
    rewrite (IHscan s) by lia.
    destruct (scan_once fuel' s) as [[value r]|] eqn:V; [|reflexivity].
    apply scan_once_length in V.
    destruct (skip_ws r) as [|c r1] eqn:R; [reflexivity|].
    apply skip_ws_cons_length in R.
    destruct (c =? 93); [reflexivity|].
    destruct (c =? 44); [|reflexivity].
    pose proof (skip_ws_length r1) as L1.
    rewrite (IHarr (skip_ws r1)) by lia. reflexivity.
Qed.

(** The fuel [json_loads] gives is enough: any larger amount gives the
    same result. *)
Lemma scan_once_fuel (s : pystr) (fuel : nat) :
  (2 * length s + 1 <= fuel)%nat ->
  scan_once fuel s = scan_once (2 * length s + 1) s.
Proof.
  intros H. now apply (proj1 (scan_fuel_enough fuel (2 * length s + 1)%nat)).
Qed.

(** [json.loads] gives the same value with and without the white
    space [strip] removes around an accepted text. *)
Lemma json_loads_strip (s : pystr) (v : pyval) :
  json_loads s = Some v -> json_loads (strip s) = Some v.
Proof.
  intros H.
  destruct (json_loads_shape _ _ H)
    as (w1 & mid & w2 & a & z & Es & Hw1 & Hw2 & Ha & Hz & Hfirst & Hlast & Hscan).
  assert (strip s = mid) as ->.
  { rewrite Es. apply (strip_core w1 w2 mid a z);
      auto using blank_spaces; [apply Ha | apply Hz]. }
  rewrite (proj1 (scan_trim w2 (2 * length s + 1)%nat Hw2)) in Hscan.
  destruct (scan_once (2 * length s + 1)%nat mid) as [[v' r]|] eqn:E; [|discriminate].
  cbn [with_rest] in Hscan. injection Hscan as -> Hr.
  assert (r = []) as ->.
  { apply (f_equal (@length N)) in Hr. rewrite length_app in Hr.
    destruct r; [reflexivity|simpl in Hr; lia]. }
  rewrite scan_once_fuel in E by (rewrite Es, !length_app; lia).
  unfold json_loads.
  destruct Hfirst as [m Em]. rewrite Em at 2.
  rewrite skip_ws_solid by (now apply solid_not_ws).
  rewrite <- Em, E. reflexivity.
Qed.

End FuelFacts.

(* ================================================================== *)
(** * Fences *)
(* ================================================================== *)

Module FenceFacts.

Import Str Val Json Pipeline StrFacts JsonFacts ScanFacts TrimFacts FuelFacts.
Local Open Scope N_scope.

(** ** Fences *)

Lemma fence_no_newline : ~ In newline fence.
Proof. unfold fence, newline, py. simpl. intuition discriminate. Qed.

Lemma json_fence_no_newline : ~ In newline json_fence.
Proof. unfold json_fence, newline, py. simpl. intuition discriminate. Qed.

Lemma json_fence_fence (s : pystr) :
  startswith s json_fence = true -> startswith s fence = true.
Proof.
  intros H. apply startswith_inv in H as [t ->].
  change json_fence with (fence ++ py "json"). rewrite <- app_assoc.
  apply startswith_app.
Qed.

(** A text that does not start with a backtick starts with no fence. *)
Lemma no_fence_start (c : N) (t : pystr) :
  c <> backtick ->
  startswith (c :: t) fence = false /\ startswith (c :: t) json_fence = false.
Proof.
  intros H. split.
  - now apply (startswith_head c backtick t (py "``")).
  - now apply (startswith_head c backtick t (py "``json")).
Qed.

Lemma no_fence_end (t : pystr) (c : N) :
  c <> backtick -> endswith (t ++ [c]) fence = false.
Proof. intros H. now apply (endswith_last t (py "``") c backtick). Qed.

(** The three tests leave alone a text with no backtick at either
    end. *)
Lemma fence_branches_solid (s : pystr) (a z : N) :
  a <> backtick -> z <> backtick ->
  (exists m, s = a :: m) -> (exists m, s = m ++ [z]) ->
  generic_fence_branch s = s /\ json_fence_branch s = s /\ closing_fence_branch s = s.
Proof.
  intros Ha Hz [m Hm] [m' Hm'].
  unfold generic_fence_branch, json_fence_branch, closing_fence_branch.
  destruct (no_fence_start a m Ha) as [F1 F2]. rewrite <- Hm in F1, F2.
  pose proof (no_fence_end m' z Hz) as F3. rewrite <- Hm' in F3.
  now rewrite F1, F2, F3.
Qed.

(** What [json.loads] accepts has no backtick at either end, and
    neither has it once stripped. *)
Lemma json_text_no_fence (J : pystr) (v : pyval) :
  json_loads J = Some v ->
  generic_fence_branch J = J /\ json_fence_branch J = J /\ closing_fence_branch J = J.
Proof.
  intros H.
  destruct (json_loads_shape _ _ H)
    as (w1 & mid & w2 & a & z & Es & Hw1 & Hw2 & [_ Ha] & [_ Hz] & [m Hm] & [m' Hm'] & _).
  assert (exists a' t, J = a' :: t /\ a' <> backtick) as (a' & t & EJ & Ha').
  { destruct Hw1 as [|c w1 Hc _].
    - exists a, (m ++ w2). split; [|assumption]. rewrite Es, Hm. reflexivity.
    - exists c, (w1 ++ mid ++ w2). split; [now rewrite Es|].
      intros ->. discriminate. }
  assert (exists t z', J = t ++ [z'] /\ z' <> backtick) as (t' & z' & EJ' & Hz').
  { destruct (rev w2) as [|c rw] eqn:R.
    - apply (f_equal (@rev N)) in R. rewrite rev_involutive in R. simpl in R. subst w2.
      exists (w1 ++ m'), z. split; [|assumption].
      now rewrite Es, Hm', app_nil_r, app_assoc.
    - apply (f_equal (@rev N)) in R. rewrite rev_involutive in R. simpl in R.
      exists (w1 ++ mid ++ rev rw), c. split.
      + now rewrite Es, R, <- !app_assoc.
      + rewrite R in Hw2. apply Forall_app in Hw2 as [_ Hc].
        inversion Hc; subst. intros ->. discriminate. }
  apply (fence_branches_solid J a' z'); eauto.
Qed.

Lemma strip_fences_json (J : pystr) (v : pyval) :
  json_loads J = Some v ->
  strip_fences J = strip J /\ strip_fences (strip J) = strip J.
Proof.
  intros H. unfold strip_fences.
  destruct (json_text_no_fence _ _ H) as (-> & -> & ->).
  split; [reflexivity|].
  pose proof (json_loads_strip _ _ H) as H'.
  destruct (json_text_no_fence _ _ H') as (-> & -> & ->).
  destruct (json_loads_shape _ _ H)
    as (w1 & mid & w2 & a & z & Es & Hw1 & Hw2 & [Ha _] & [Hz _] & Hfirst & Hlast & _).
  assert (strip J = mid) as ->.
  { rewrite Es. apply (strip_core w1 w2 mid a z); auto using blank_spaces. }
  apply (strip_solid mid a z); assumption.
Qed.

(** The parser on a bare JSON text gives its value. *)
Lemma parse_response_json (J : pystr) (v : pyval) :
  json_loads J = Some v -> parse_response J = v.
Proof.
  intros H. unfold parse_response.
  rewrite (proj2 (strip_fences_json _ _ H)).
  now rewrite (json_loads_strip _ _ H).
Qed.

(** A text between backticks is untouched by [strip]. *)
Lemma strip_between_backticks (s : pystr) :
  strip (backtick :: s ++ [backtick]) = backtick :: s ++ [backtick].
Proof.
  apply (strip_solid _ backtick backtick); try reflexivity.
  - now exists (s ++ [backtick]).
  - now exists (backtick :: s).
Qed.

(** ** The generic fence *)

Lemma fenced_lines (J : pystr) :
  split newline (fenced J) = fence :: split newline J ++ [fence].
Proof.
  unfold fenced. cbn [app].
  change (fence ++ newline :: J ++ newline :: fence)
    with (fence ++ newline :: (J ++ newline :: fence)).
  rewrite !split_app. now rewrite (split_no_sep newline fence fence_no_newline).
Qed.

Lemma generic_fence_branch_fenced (J : pystr) :
  generic_fence_branch (fenced J) = J.
Proof.
  unfold generic_fence_branch.
  replace (startswith (fenced J) fence) with true
    by (symmetry; apply startswith_app).
  rewrite fenced_lines.
  replace (2 <? length (fence :: split newline J ++ [fence]))%nat with true.
  2:{ symmetry. apply Nat.ltb_lt. cbn [length]. rewrite length_app. simpl.
      pose proof (split_nonempty newline J).
      destruct (split newline J); [contradiction|simpl; lia]. }
  rewrite slice_inner. apply join_split.
Qed.

Lemma strip_fenced (J : pystr) : strip (fenced J) = fenced J.
Proof.
  apply (strip_solid _ backtick backtick); try reflexivity.
  - now exists (py "``" ++ [newline] ++ J ++ [newline] ++ fence).
  - exists (fence ++ [newline] ++ J ++ [newline] ++ py "``").
    unfold fenced. change fence with (py "``" ++ [backtick]) at 2.
    now rewrite <- !app_assoc.
Qed.

(** ** The json fence on one line *)

Lemma inline_one_line (J : pystr) :
  ~ In newline J -> split newline (json_fenced_inline J) = [json_fenced_inline J].
Proof.
  intros H. apply split_no_sep. unfold json_fenced_inline.
  rewrite !in_app_iff. intros [K | [K | K]].
  - now apply json_fence_no_newline.
  - contradiction.
  - now apply fence_no_newline.
Qed.

Lemma inline_branches (J : pystr) :
  ~ In newline J ->
  generic_fence_branch (json_fenced_inline J) = json_fenced_inline J
  /\ json_fence_branch (json_fenced_inline J) = J ++ fence
  /\ closing_fence_branch (J ++ fence) = J.
Proof.
  intros H. split; [|split].
  - unfold generic_fence_branch. rewrite (inline_one_line J H).
    now destruct (startswith (json_fenced_inline J) fence).
  - unfold json_fence_branch, json_fenced_inline.
    rewrite startswith_app. now apply slice_from.
  - unfold closing_fence_branch. rewrite endswith_app.
    now apply slice_until.
Qed.

Lemma strip_inline (J : pystr) :
  strip (json_fenced_inline J) = json_fenced_inline J.
Proof.
  apply (strip_solid _ backtick backtick); try reflexivity.
  - now exists (py "``json" ++ J ++ fence).
  - exists (json_fence ++ J ++ py "``").
    unfold json_fenced_inline. change fence with (py "``" ++ [backtick]).
    now rewrite <- !app_assoc.
Qed.

(** ** A json fence over several lines *)

Lemma lines_middle (l0 l1 l2 : pystr) (rest : list pystr) :
  exists m, slice (l0 :: l1 :: l2 :: rest) (Some 1%Z) (Some (-1)%Z) = l1 :: m.
Proof.
  destruct (exists_last (l:=l2 :: rest)) as [m [y E]]; [discriminate|].
  rewrite E. exists m.
  change (l0 :: l1 :: m ++ [y]) with (l0 :: (l1 :: m) ++ [y]).
  apply slice_inner.
Qed.

(** After the line slicing the text starts with [```json] exactly when
    the second line of the answer does. *)
Lemma generic_branch_second_line (r : pystr) :
  startswith r fence = true ->
  (2 < length (split newline r))%nat ->
  startswith (generic_fence_branch r) json_fence
  = startswith (nth 1 (split newline r) []) json_fence.
Proof.
  intros Hf Hl. unfold generic_fence_branch. rewrite Hf.
  apply Nat.ltb_lt in Hl as Hl'. rewrite Hl'.
  destruct (split newline r) as [|l0 [|l1 [|l2 rest]]]; simpl in Hl; try lia.
  destruct (lines_middle l0 l1 l2 rest) as [m ->].
  cbn [nth]. apply join_cons_startswith. exact json_fence_no_newline.
Qed.

(** The lines of an answer of more than two lines, and what the line
    slicing keeps of them: all but the first and the last. *)
Lemma generic_branch_lines (r : pystr) :
  startswith r fence = true ->
  (2 < length (split newline r))%nat ->
  exists first middle last,
    split newline r = first :: middle ++ [last]
    /\ middle <> []
    /\ generic_fence_branch r = join [newline] middle.
Proof.
  intros Hf Hl. unfold generic_fence_branch. rewrite Hf.
  apply Nat.ltb_lt in Hl as Hl'. rewrite Hl'.
  destruct (split newline r) as [|l0 [|l1 [|l2 rest]]]; simpl in Hl; try lia.
  destruct (exists_last (l:=l2 :: rest)) as [m [y E]]; [discriminate|].
  rewrite E. exists l0, (l1 :: m), y.
  split; [reflexivity|]. split; [discriminate|].
  change (l0 :: l1 :: m ++ [y]) with (l0 :: (l1 :: m) ++ [y]).
  now rewrite slice_inner.
Qed.

(** A prefix without newline is a prefix of the first line. *)
Lemma first_line_startswith (r p : pystr) :
  ~ In newline p ->
  startswith r p = startswith (hd [] (split newline r)) p.
Proof.
  intros Hp. pose proof (join_split newline r) as E.
  pose proof (split_nonempty newline r) as Hne.
  destruct (split newline r) as [|l ls]; [contradiction|].
  rewrite <- E. cbn [hd]. now apply join_cons_startswith.
Qed.

End FenceFacts.

(* ================================================================== *)
(** * Dictionaries and the pipeline *)
(* ================================================================== *)

Module DictFacts.

Import Str Val StrFacts.

Lemma dict_get_none {V : Type} (d : dict V) (k : pystr) :
  dict_get d k = None <-> ~ In k (keys d).
Proof.
  induction d as [|[k' v] d IH]; simpl.
  - tauto.
  - destruct (Str.eqb k k') eqn:E.
    + apply eqb_eq in E. subst. split; [discriminate|]. intros H. exfalso. auto.
    + apply eqb_neq in E. rewrite IH. split.
      * intros H [K | K]; [congruence|contradiction].
      * intros H K. apply H. now right.
Qed.

Lemma dict_get_some {V : Type} (d : dict V) (k : pystr) (v : V) :
  dict_get d k = Some v -> In k (keys d).
Proof.
  intros H. destruct (in_dec (list_eq_dec N.eq_dec) k (keys d)) as [K | K];
    [assumption|].
  apply dict_get_none in K. congruence.
Qed.

(** A new key goes last. *)
Lemma dict_set_new {V : Type} (d : dict V) (k : pystr) (v : V) :
  ~ In k (keys d) -> dict_set d k v = d ++ [(k, v)].
Proof.
  induction d as [|[k' v'] d IH]; simpl; intros H; [reflexivity|].
  destruct (Str.eqb k k') eqn:E.
  - apply eqb_eq in E. subst. exfalso. auto.
  - rewrite IH; [reflexivity|]. intros K. apply H. now right.
Qed.

Lemma dict_set_keys_new {V : Type} (d : dict V) (k : pystr) (v : V) :
  ~ In k (keys d) -> keys (dict_set d k v) = keys d ++ [k].
Proof.
  intros H. rewrite dict_set_new by assumption.
  unfold keys. now rewrite map_app.
Qed.

Lemma dict_get_app {V : Type} (d1 d2 : dict V) (k : pystr) :
  dict_get (d1 ++ d2) k =
  match dict_get d1 k with Some v => Some v | None => dict_get d2 k end.
Proof.
  induction d1 as [|[k' v'] d1 IH]; simpl; [reflexivity|].
  now destruct (Str.eqb k k').
Qed.

End DictFacts.

Module PipelineFacts.

Import Str Val Json Pipeline StrFacts DictFacts.

(** ** The verify flag *)

Lemma new_entry_fold (d acc : dict pyval) :
  NoDup (keys d) ->
  (forall k, In k (keys d) -> k <> py "head" -> ~ In k (keys acc)) ->
  fold_left
    (fun acc kv =>
       if negb (Str.eqb (fst kv) (py "head"))
       then dict_set acc (fst kv) (snd kv)
       else acc) d acc
  = acc ++ filter not_head d.
Proof.
  revert acc. induction d as [|[k v] d IH]; intros acc Hd Hacc; simpl.
  - now rewrite app_nil_r.
  - inversion Hd as [|? ? Hk Hd']; subst. unfold not_head at 1. simpl.
    destruct (Str.eqb k (py "head")) eqn:E; simpl.
    + apply IH; [assumption|]. intros k' Hk'. apply Hacc. now right.
    + apply eqb_neq in E.
      rewrite dict_set_new by (apply Hacc; [now left|assumption]).
      rewrite IH; [now rewrite <- app_assoc|assumption|].
      intros k' Hk' Hne. unfold keys. rewrite map_app, in_app_iff.
      intros [K | [K | []]].
      * revert K. apply Hacc; [now right|assumption].
      * simpl in K. subst. contradiction.
Qed.

(** An entry with a [head] and without a [verify] field: [head], then
    [verify: False], then the other fields as they were. *)
Lemma new_entry_without_verify (d : dict pyval) (head : pyval) :
  NoDup (keys d) ->
  dict_get d (py "verify") = None ->
  new_entry d head
  = (py "head", head) :: (py "verify", PyBool false) :: filter not_head d.
Proof.
  intros Hd Hv. unfold new_entry. rewrite new_entry_fold; [reflexivity|assumption|].
  intros k Hk Hne [K | [K | []]]; simpl in K.
  - congruence.
  - subst. apply dict_get_none in Hv. contradiction.
Qed.

Lemma visit_with_head (d : dict pyval) (head : pyval) :
  NoDup (keys d) ->
  dict_get d (py "head") = Some head ->
  dict_get d (py "verify") = None ->
  visit (PyDict d)
  = Returns (PyDict ((py "head", head) :: (py "verify", PyBool false)
                       :: filter not_head d)).
Proof.
  intros Hd Hh Hv. simpl. rewrite Hh. now rewrite new_entry_without_verify.
Qed.

Lemma visit_without_head (d : dict pyval) :
  dict_get d (py "head") = None -> visit (PyDict d) = Returns (PyDict d).
Proof. intros H. simpl. now rewrite H. Qed.

Lemma insert_verify_empty : insert_verify empty_result = Returns empty_result.
Proof. reflexivity. Qed.

Lemma insert_verify_not_dict (v : pyval) :
  (forall d, v <> PyDict d) -> insert_verify v = Raises AttributeError.
Proof. intros H. destruct v; try reflexivity. now destruct (H d). Qed.

Section Facts.

Variables prompt_head prompt_tail : pystr.

#[local] Abbreviation prompt := (Pipeline.prompt prompt_head prompt_tail).
#[local] Abbreviation parse_sloka_with_claude :=
  (Pipeline.parse_sloka_with_claude prompt_head prompt_tail).
#[local] Abbreviation enrich_sloka := (Pipeline.enrich_sloka prompt_head prompt_tail).
#[local] Abbreviation enrich_loop := (Pipeline.enrich_loop prompt_head prompt_tail).
#[local] Abbreviation enrich_yaml := (Pipeline.enrich_yaml prompt_head prompt_tail).
#[local] Abbreviation main := (Pipeline.main prompt_head prompt_tail).
#[local] Abbreviation run := (Pipeline.run prompt_head prompt_tail).

(** ** One verse *)

Lemma parse_sloka_text (w : world) (sloka text : pystr) (st : state) :
  messages_create w (prompt sloka) = Returns text ->
  parse_sloka_with_claude w sloka st
  = (Returns (parse_response text), record_call (prompt sloka) st).
Proof.
  intros H. unfold Pipeline.parse_sloka_with_claude, bind, attempt, call_model, parse_response.
  rewrite H. now destruct (json_loads (strip_fences (strip text))).
Qed.

Lemma parse_sloka_raises (w : world) (sloka : pystr) (e : exn) (st : state) :
  messages_create w (prompt sloka) = Raises e ->
  parse_sloka_with_claude w sloka st
  = (match e with
     | JSONDecodeError => Raises UnboundLocalError
     | SystemExit _ => Raises e
     | _ => Returns empty_result
     end, record_call (prompt sloka) st).
Proof.
  intros H. unfold Pipeline.parse_sloka_with_claude, bind, attempt, call_model.
  rewrite H. now destruct e.
Qed.

(** The outcome of a turn of the loop depends on the verse alone. *)
Lemma enrich_sloka_state (w : world) (sloka : pystr) (st : state) :
  enrich_sloka w sloka st
  = (fst (enrich_sloka w sloka initial), record_call (prompt sloka) st).
Proof.
  unfold Pipeline.enrich_sloka, bind, lift.
  destruct (messages_create w (prompt sloka)) as [text|e] eqn:E.
  - rewrite !(parse_sloka_text _ _ _ _ E).
    now destruct (insert_verify (parse_response text)).
  - rewrite !(parse_sloka_raises _ _ _ _ E).
    destruct e; try reflexivity.
Qed.

Lemma enrich_loop_cons (w : world) (sloka : pystr) (metadata : pyval)
      (rest acc : dict pyval) (st : state) :
  enrich_loop w ((sloka, metadata) :: rest) acc st
  = match fst (enrich_sloka w sloka initial) with
    | Returns v => enrich_loop w rest (dict_set acc sloka v) (record_call (prompt sloka) st)
    | Raises e => (Raises e, record_call (prompt sloka) st)
    end.
Proof.
  cbn [Pipeline.enrich_loop]. unfold bind at 1. rewrite enrich_sloka_state.
  now destruct (fst (enrich_sloka w sloka initial)).
Qed.

(** ** The loop *)

Lemma enrich_loop_written (w : world) (items : dict pyval) :
  forall acc st, written (snd (enrich_loop w items acc st)) = written st.
Proof.
  induction items as [|[sloka metadata] rest IH]; intros acc st; [reflexivity|].
  rewrite enrich_loop_cons.
  destruct (fst (enrich_sloka w sloka initial)); [|reflexivity].
  now rewrite IH.
Qed.

Lemma enrich_loop_keys (w : world) (items : dict pyval) :
  forall acc st out st',
    NoDup (keys acc ++ keys items) ->
    enrich_loop w items acc st = (Returns out, st') ->
    keys out = keys acc ++ keys items.
Proof.
  induction items as [|[sloka metadata] rest IH]; intros acc st out st' Hnd H.
  - injection H as <- _. simpl. now rewrite app_nil_r.
  - rewrite enrich_loop_cons in H.
    destruct (fst (enrich_sloka w sloka initial)) as [v|e]; [|discriminate].
    simpl in Hnd. apply NoDup_remove in Hnd as Hnd'. destruct Hnd' as [Hnd' Hnot].
    assert (~ In sloka (keys acc)) as Hfresh.
    { intros K. apply Hnot. apply in_or_app. now left. }
    apply IH in H.
    + rewrite H, dict_set_keys_new by assumption.
      now rewrite <- app_assoc.
    + rewrite dict_set_keys_new by assumption. rewrite <- app_assoc. exact Hnd.
Qed.

(** The loop reads the keys of its input and nothing else. *)
Lemma enrich_loop_metadata (w : world) (items1 : dict pyval) :
  forall items2 acc st,
    keys items1 = keys items2 ->
    enrich_loop w items1 acc st = enrich_loop w items2 acc st.
Proof.
  induction items1 as [|[sloka m1] rest1 IH]; intros [|[sloka2 m2] rest2] acc st H;
    try discriminate; [reflexivity|].
  simpl in H. injection H as <- H.
  rewrite !enrich_loop_cons.
  destruct (fst (enrich_sloka w sloka initial)); [|reflexivity].
  now apply IH.
Qed.

(** The loop sees the world through [messages_create] alone. *)
Lemma enrich_loop_world (w1 w2 : world) (items : dict pyval) :
  messages_create w1 = messages_create w2 ->
  forall acc st, enrich_loop w1 items acc st = enrich_loop w2 items acc st.
Proof.
  intros H. induction items as [|[sloka m] rest IH]; intros acc st; [reflexivity|].
  rewrite !enrich_loop_cons.
  assert (enrich_sloka w1 sloka initial = enrich_sloka w2 sloka initial) as ->.
  { unfold Pipeline.enrich_sloka, Pipeline.parse_sloka_with_claude, bind, attempt, call_model.
    now rewrite H. }
  destruct (fst (enrich_sloka w2 sloka initial)) as [v|e]; [apply IH|reflexivity].
Qed.

(** A verse whose turn raises aborts the loop, at that verse or
    before. *)
Lemma enrich_loop_aborts (w : world) (sloka : pystr) (e : exn) (items : dict pyval) :
  fst (enrich_sloka w sloka initial) = Raises e ->
  In sloka (keys items) ->
  forall acc st, exists e', fst (enrich_loop w items acc st) = Raises e'.
Proof.
  intros He. induction items as [|[k m] rest IH]; intros Hin acc st; [contradiction|].
  rewrite enrich_loop_cons.
  destruct (fst (enrich_sloka w k initial)) as [v|e'] eqn:E.
  - destruct Hin as [<- | Hin]; [simpl in He; congruence|]. now apply IH.
  - now exists e'.
Qed.

(** When every turn returns, so does the loop, and every verse holds
    what its turn returned. *)
Lemma enrich_loop_completes (w : world) (items : dict pyval) :
  (forall sloka, In sloka (keys items) ->
     exists v, fst (enrich_sloka w sloka initial) = Returns v) ->
  forall acc st, exists out st', enrich_loop w items acc st = (Returns out, st').
Proof.
  induction items as [|[k m] rest IH]; intros Hall acc st.
  - now exists acc, st.
  - rewrite enrich_loop_cons.
    destruct (Hall k (or_introl eq_refl)) as [v ->].
    apply IH. intros sloka Hin. apply Hall. now right.
Qed.

Lemma enrich_loop_keeps (w : world) (items : dict pyval) :
  forall acc st out st' k v,
    NoDup (keys acc ++ keys items) ->
    enrich_loop w items acc st = (Returns out, st') ->
    dict_get acc k = Some v ->
    dict_get out k = Some v.
Proof.
  induction items as [|[k' m] rest IH]; intros acc st out st' k v Hnd H G.
  - injection H as <- _. assumption.
  - rewrite enrich_loop_cons in H.
    destruct (fst (enrich_sloka w k' initial)) as [v'|e]; [|discriminate].
    simpl in Hnd. apply NoDup_remove in Hnd as Hx. destruct Hx as [_ Hnot].
    assert (~ In k' (keys acc)) as Hfresh.
    { intros K. apply Hnot. apply in_or_app. now left. }
    apply (IH _ _ _ _ k v) in H; [assumption| |].
    + rewrite dict_set_keys_new by assumption. rewrite <- app_assoc. exact Hnd.
    + rewrite dict_set_new by assumption. rewrite dict_get_app. now rewrite G.
Qed.

Lemma enrich_loop_get (w : world) (items : dict pyval) :
  forall acc st out st' sloka v,
    NoDup (keys acc ++ keys items) ->
    enrich_loop w items acc st = (Returns out, st') ->
    In sloka (keys items) ->
    fst (enrich_sloka w sloka initial) = Returns v ->
    dict_get out sloka = Some v.
Proof.
  induction items as [|[k m] rest IH]; intros acc st out st' sloka v Hnd H Hin Hv;
    [contradiction|].
  rewrite enrich_loop_cons in H.
  destruct (fst (enrich_sloka w k initial)) as [vk|e] eqn:Ek; [|discriminate].
  simpl in Hnd. apply NoDup_remove in Hnd as Hx. destruct Hx as [_ Hnot].
  assert (~ In k (keys acc)) as Hfresh.
  { intros K. apply Hnot. apply in_or_app. now left. }
  assert (NoDup (keys (dict_set acc k vk) ++ keys rest)) as Hnd2.
  { rewrite dict_set_keys_new by assumption. rewrite <- app_assoc. exact Hnd. }
  destruct Hin as [E | Hin].
  - simpl in E. subst k. rewrite Ek in Hv. injection Hv as ->.
    apply (enrich_loop_keeps _ _ _ _ _ _ sloka v Hnd2 H).
    rewrite dict_set_new by assumption. rewrite dict_get_app.
    apply dict_get_none in Hfresh. rewrite Hfresh. simpl. now rewrite eqb_refl.
  - now apply (IH _ _ _ _ sloka v Hnd2 H).
Qed.

(** ** The run *)

Lemma run_no_input (w : world) :
  input_exists w = false -> run w = (1%Z, initial).
Proof. intros H. unfold Pipeline.run, Pipeline.main. now rewrite H. Qed.

Lemma run_no_client (w : world) (data : dict pyval) (e : exn) :
  input_exists w = true -> safe_load w = Returns data ->
  AnthropicVertex w = Raises e -> is_Exception e = true ->
  run w = (1%Z, initial).
Proof.
  intros Hi Hl Hc He.
  unfold Pipeline.run, Pipeline.main, Pipeline.enrich_yaml, bind, lift, make_client.
  rewrite Hi, Hl, Hc, He. reflexivity.
Qed.

(** The run once the input is read and the client built. *)
Lemma main_loop (w : world) (data : dict pyval) :
  input_exists w = true -> safe_load w = Returns data ->
  AnthropicVertex w = Returns tt ->
  main w initial
  = match enrich_loop w data [] initial with
    | (Returns out, st) => write_output w out st
    | (Raises e, st) => (Raises e, st)
    end.
Proof.
  intros Hi Hl Hc.
  unfold Pipeline.main, Pipeline.enrich_yaml, bind, lift, make_client.
  rewrite Hi, Hl, Hc. unfold ret.
  now destruct (enrich_loop w data [] initial) as [[out|e] st].
Qed.

Lemma main_written (w : world) (out : dict pyval) :
  written (snd (main w initial)) = Some out ->
  exists data st,
    safe_load w = Returns data
    /\ enrich_loop w data [] initial = (Returns out, st).
Proof.
  unfold Pipeline.main, Pipeline.enrich_yaml, bind, lift, make_client.
  destruct (input_exists w); [|discriminate].
  destruct (safe_load w) as [data|e]; [|discriminate].
  destruct (AnthropicVertex w) as [[]|e]; [|destruct (is_Exception e); discriminate].
  unfold ret.
  pose proof (enrich_loop_written w data [] initial) as W.
  destruct (enrich_loop w data [] initial) as [[out'|e] st] eqn:E; simpl in W.
  - unfold write_output. destruct (dump w out').
    + simpl. intros H. injection H as ->. now exists data, st.
    + simpl. rewrite W. discriminate.
  - simpl. rewrite W. discriminate.
Qed.

End Facts.

End PipelineFacts.

(* ================================================================== *)
(** * The claims of the specification *)
(* ================================================================== *)

Import Str Val Json Pipeline.
Import StrFacts JsonFacts ScanFacts TrimFacts FuelFacts FenceFacts DictFacts PipelineFacts.
Import Examples.

Ltac distinct := repeat constructor; simpl; intuition discriminate.

Section Claims.

Variables prompt_head prompt_tail : pystr.

#[local] Abbreviation prompt := (Pipeline.prompt prompt_head prompt_tail).
#[local] Abbreviation parse_sloka_with_claude :=
  (Pipeline.parse_sloka_with_claude prompt_head prompt_tail).
#[local] Abbreviation enrich_sloka := (Pipeline.enrich_sloka prompt_head prompt_tail).
#[local] Abbreviation enrich_loop := (Pipeline.enrich_loop prompt_head prompt_tail).
#[local] Abbreviation main := (Pipeline.main prompt_head prompt_tail).
#[local] Abbreviation run := (Pipeline.run prompt_head prompt_tail).

(** C1 (defect of the code).  The claim: an entry with a [head] comes
    out as [head], [verify: False], then its other fields.  The code
    copies every field but [head] over [new_entry], so a [verify] field
    already in the answer of the model replaces the [False] written
    first: here the entry comes out with [verify: True]. *)
Theorem verify_flag_overwritten :
  insert_verify
    (parse_response (js "{'entries': [{'head': 'a', 'verify': true, 'gender': 'm'}]}"))
  = Returns
      (PyDict
         [(py "entries",
           PyList
             [PyDict [(py "head", PyStr (py "a"));
                      (py "verify", PyBool true);
                      (py "gender", PyStr (py "m"))]])]).
Proof. vm_compute. reflexivity. Qed.

(** C2.  When the run writes its output, the keys of the mapping
    written are the keys of the input mapping, code point for code
    point and in the same order. *)
Theorem output_keys_preserved (w : world) (data out : dict pyval) :
  safe_load w = Returns data ->
  NoDup (keys data) ->
  written (snd (run w)) = Some out ->
  keys out = keys data.
Proof.
  intros Hl Hnd Hw. unfold Pipeline.run in Hw.
  destruct (main w initial) as [o st] eqn:E. simpl in Hw.
  assert (written (snd (main w initial)) = Some out) as Hw' by (now rewrite E).
  apply main_written in Hw' as (data' & st' & Hl' & Hloop).
  rewrite Hl in Hl'. injection Hl' as <-.
  exact (enrich_loop_keys prompt_head prompt_tail w data [] initial out st' Hnd Hloop).
Qed.

(** C3 (defect of the code).  The claim: whatever exception the call
    of the model raises, the verse is stored with no entries and the
    run goes on.  When the call raises [json.JSONDecodeError], the
    first [except] clause runs and reads [response_text], which line 94
    has not assigned yet: [UnboundLocalError] leaves
    [parse_sloka_with_claude], the loop stops at the first verse and
    nothing is written. *)
Theorem decode_error_of_call_aborts :
  fst (parse_sloka_with_claude (world_of (Raises JSONDecodeError) two_verses) verse1 initial)
  = Raises UnboundLocalError
  /\ run (world_of (Raises JSONDecodeError) two_verses)
     = (1%Z, {| calls := [prompt verse1]; written := None |}).
Proof. split; reflexivity. Qed.

(** C4.  When the answer of the model, fences removed, is not JSON,
    [parse_sloka_with_claude] returns [{"entries": []}] and raises
    nothing. *)
Theorem malformed_answer_gives_empty (w : world) (sloka text : pystr) (st : state) :
  messages_create w (prompt sloka) = Returns text ->
  json_loads (strip_fences (strip text)) = None ->
  parse_sloka_with_claude w sloka st
  = (Returns empty_result, record_call (prompt sloka) st).
Proof.
  intros Hm Hj. rewrite (parse_sloka_text _ _ _ _ _ _ Hm).
  unfold parse_response. now rewrite Hj.
Qed.

(** C5.  For a JSON text [J], the parser gives the same structure for
    [J] between two lines [```] as for [J] alone: the value of [J]. *)
Theorem generic_fence_same_structure (J : pystr) (v : pyval) :
  json_loads J = Some v ->
  parse_response (fenced J) = parse_response J /\ parse_response J = v.
Proof.
  intros H. rewrite (parse_response_json _ _ H). split; [|reflexivity].
  unfold parse_response, strip_fences.
  rewrite strip_fenced, generic_fence_branch_fenced.
  destruct (json_text_no_fence _ _ H) as (_ & -> & ->).
  now rewrite (json_loads_strip _ _ H).
Qed.

(** C6 (as amended).  For an answer of more than two lines that opens
    with [```json]: the line slicing removes the opening line (and the
    last one), and what it leaves starts with [```json] exactly when
    the second line of the answer does.  When the second line does not,
    the second test has nothing to remove, and the parser, also when
    run on the reply of the model, gives what it gives without that
    test. *)
Theorem json_check_idle_after_slicing (text : pystr) :
  startswith (strip text) json_fence = true ->
  (2 < length (split newline (strip text)))%nat ->
  (exists first middle last,
      split newline (strip text) = first :: middle ++ [last]
      /\ middle <> []
      /\ startswith first json_fence = true
      /\ generic_fence_branch (strip text) = join [newline] middle)
  /\ startswith (generic_fence_branch (strip text)) json_fence
     = startswith (nth 1 (split newline (strip text)) []) json_fence
  /\ (startswith (nth 1 (split newline (strip text)) []) json_fence = false ->
      startswith (generic_fence_branch (strip text)) json_fence = false
      /\ json_fence_branch (generic_fence_branch (strip text))
         = generic_fence_branch (strip text)
      /\ parse_response text = parse_response_generic_only text
      /\ forall (w : world) (sloka : pystr) (st : state),
           messages_create w (prompt sloka) = Returns text ->
           parse_sloka_with_claude w sloka st
           = (Returns (parse_response_generic_only text),
              record_call (prompt sloka) st)).
Proof.
  intros Hj Hl.
  pose proof (json_fence_fence _ Hj) as Hf.
  pose proof (generic_branch_second_line _ Hf Hl) as Hsecond.
  split; [|split; [exact Hsecond|]].
  - destruct (generic_branch_lines _ Hf Hl) as (first & middle & last & Es & Hm & Eg).
    exists first, middle, last.
    split; [exact Es|]. split; [exact Hm|]. split; [|exact Eg].
    rewrite (first_line_startswith _ _ json_fence_no_newline) in Hj.
    now rewrite Es in Hj.
  - intros H2.
    assert (startswith (generic_fence_branch (strip text)) json_fence = false) as Hidle
      by now rewrite Hsecond.
    assert (json_fence_branch (generic_fence_branch (strip text))
            = generic_fence_branch (strip text)) as Hb
      by (unfold json_fence_branch; now rewrite Hidle).
    assert (parse_response text = parse_response_generic_only text) as Hp.
    { unfold parse_response, parse_response_generic_only,
        strip_fences, strip_fences_generic_only.
      now rewrite Hb. }
    split; [exact Hidle|]. split; [exact Hb|]. split; [exact Hp|].
    intros w sloka st Hm.
    rewrite (parse_sloka_text prompt_head prompt_tail w sloka text st Hm).
    now rewrite Hp.
Qed.

(** C7 (as amended).  A missing input file, and a client that cannot
    be built once the input is read, end the run with status 1, no call
    of the model and nothing written.  When the input is read, the
    client built, every turn of the loop returns and the output is
    written, the status is 0. *)
Theorem exit_status_of_run (w : world) :
  (input_exists w = false -> run w = (1%Z, initial))
  /\ (forall data e,
        input_exists w = true -> safe_load w = Returns data ->
        AnthropicVertex w = Raises e -> is_Exception e = true ->
        run w = (1%Z, initial))
  /\ (forall data out st,
        input_exists w = true -> safe_load w = Returns data ->
        AnthropicVertex w = Returns tt ->
        enrich_loop w data [] initial = (Returns out, st) ->
        dump w out = Returns tt ->
        fst (run w) = 0%Z /\ written (snd (run w)) = Some out).
Proof.
  split; [apply run_no_input|]. split; [apply run_no_client|].
  intros data out st Hi Hl Hc Hloop Hd. unfold Pipeline.run.
  rewrite (main_loop _ _ _ _ Hi Hl Hc), Hloop. unfold write_output. rewrite Hd.
  now split.
Qed.

(** C8.  Two input mappings with the same keys in the same order give
    the same run: the same exit status, the same calls of the model and
    the same mapping written, whatever their values. *)
Theorem output_ignores_metadata (w : world) (data1 data2 : dict pyval) :
  keys data1 = keys data2 ->
  run (with_input w data1) = run (with_input w data2).
Proof.
  intros H.
  unfold Pipeline.run, Pipeline.main, Pipeline.enrich_yaml, bind, lift, make_client,
    write_output.
  cbn [with_input input_exists safe_load AnthropicVertex dump].
  destruct (input_exists w); [|reflexivity].
  destruct (AnthropicVertex w) as [c|e]; [|now destruct (is_Exception e)].
  unfold ret.
  rewrite (enrich_loop_world prompt_head prompt_tail
             (with_input w data1) (with_input w data2) data1 eq_refl).
  now rewrite (enrich_loop_metadata prompt_head prompt_tail _ data1 data2 [] initial H).
Qed.

(** C9.  When the answer decodes to a value that is not an object, the
    parser returns that value, [parsed.get] raises [AttributeError]
    outside every handler, and a run over a mapping with that verse
    ends in an exception with nothing written. *)
Theorem non_object_answer_aborts (w : world) (sloka text : pystr) (v : pyval) :
  messages_create w (prompt sloka) = Returns text ->
  json_loads (strip_fences (strip text)) = Some v ->
  (forall d, v <> PyDict d) ->
  (forall st, parse_sloka_with_claude w sloka st
              = (Returns v, record_call (prompt sloka) st))
  /\ insert_verify v = Raises AttributeError
  /\ (forall st, fst (enrich_sloka w sloka st) = Raises AttributeError)
  /\ (forall data,
        input_exists w = true -> safe_load w = Returns data ->
        AnthropicVertex w = Returns tt -> In sloka (keys data) ->
        exists e st, main w initial = (Raises e, st) /\ written st = None).
Proof.
  intros Hm Hj Hv.
  assert (parse_response text = v) as Hp by (unfold parse_response; now rewrite Hj).
  assert (forall st, parse_sloka_with_claude w sloka st
                     = (Returns v, record_call (prompt sloka) st)) as Hparse.
  { intros st. now rewrite (parse_sloka_text _ _ _ _ _ _ Hm), Hp. }
  pose proof (insert_verify_not_dict v Hv) as Hi.
  assert (forall st, fst (enrich_sloka w sloka st) = Raises AttributeError) as Hturn.
  { intros st. unfold Pipeline.enrich_sloka, bind, lift. now rewrite Hparse, Hi. }
  repeat split; try assumption.
  intros data Hin Hl Hc Hk. rewrite (main_loop _ _ _ _ Hin Hl Hc).
  destruct (enrich_loop_aborts prompt_head prompt_tail w sloka _ data (Hturn initial) Hk [] initial)
    as [e He].
  pose proof (enrich_loop_written prompt_head prompt_tail w data [] initial) as W.
  destruct (enrich_loop w data [] initial) as [[out|e'] st]; [discriminate|].
  now exists e', st.
Qed.

(** C10.  For a JSON text [J] without newline, the answer
    [```json] + [J] + [```] on one line goes through the line slicing
    unchanged, loses its seven opening characters, then its three
    closing ones, and the parser gives the value of [J]:
    [parse_sloka_with_claude] returns that value, after one call of the
    model, whenever the model replies with that answer. *)
Theorem inline_json_fence_extracts (J : pystr) (v : pyval) :
  json_loads J = Some v ->
  ~ In newline J ->
  generic_fence_branch (json_fenced_inline J) = json_fenced_inline J
  /\ json_fence_branch (json_fenced_inline J) = J ++ fence
  /\ closing_fence_branch (J ++ fence) = J
  /\ parse_response (json_fenced_inline J) = v
  /\ forall (w : world) (sloka : pystr) (st : state),
       messages_create w (prompt sloka) = Returns (json_fenced_inline J) ->
       parse_sloka_with_claude w sloka st
       = (Returns v, record_call (prompt sloka) st).
Proof.
  intros H Hn. destruct (inline_branches J Hn) as (B1 & B2 & B3).
  assert (parse_response (json_fenced_inline J) = v) as Hp.
  { unfold parse_response, strip_fences.
    rewrite strip_inline, B1, B2, B3.
    now rewrite (json_loads_strip _ _ H). }
  split; [exact B1|]. split; [exact B2|]. split; [exact B3|]. split; [exact Hp|].
  intros w sloka st Hm.
  rewrite (parse_sloka_text prompt_head prompt_tail w sloka _ st Hm).
  now rewrite Hp.
Qed.

(** X11.  Any other exception of the call that derives from [Exception]
    is absorbed: the verse is stored with no entries, the other verses
    with what their turn returned, and the run ends with status 0. *)
Lemma api_error_recorded (w : world) (data : dict pyval) (sloka : pystr) (e : exn) :
  input_exists w = true -> safe_load w = Returns data -> NoDup (keys data) ->
  AnthropicVertex w = Returns tt -> (forall out, dump w out = Returns tt) ->
  In sloka (keys data) ->
  messages_create w (prompt sloka) = Raises e ->
  is_Exception e = true -> e <> JSONDecodeError ->
  (forall other, In other (keys data) -> other <> sloka ->
     exists v, fst (enrich_sloka w other initial) = Returns v) ->
  exists out,
    fst (run w) = 0%Z /\ written (snd (run w)) = Some out
    /\ dict_get out sloka = Some empty_result
    /\ (forall other v, In other (keys data) ->
          fst (enrich_sloka w other initial) = Returns v ->
          dict_get out other = Some v).
Proof.
  intros Hi Hl Hnd Hc Hd Hin Hm He Hne Hothers.
  assert (fst (enrich_sloka w sloka initial) = Returns empty_result) as Hturn.
  { unfold Pipeline.enrich_sloka, bind, lift.
    rewrite (parse_sloka_raises _ _ _ _ _ _ Hm). now destruct e. }
  destruct (enrich_loop_completes prompt_head prompt_tail w data) with (acc := @nil (pystr * pyval)) (st := initial)
    as (out & st & Hloop).
  { intros k Hk. destruct (list_eq_dec N.eq_dec k sloka) as [-> | Hk'].
    - now exists empty_result.
    - now apply Hothers. }
  exists out. unfold Pipeline.run.
  rewrite (main_loop _ _ _ _ Hi Hl Hc), Hloop. unfold write_output. rewrite Hd.
  cbn [fst snd exit_status written].
  split; [reflexivity|]. split; [reflexivity|]. split.
  - exact (enrich_loop_get prompt_head prompt_tail w data [] initial out st sloka _ Hnd Hloop Hin Hturn).
  - intros other v Hk Hv.
    exact (enrich_loop_get prompt_head prompt_tail w data [] initial out st other v Hnd Hloop Hk Hv).
Qed.

End Claims.

(** ** The theorems on examples *)

Ltac not_in := intros H; simpl in H; repeat (destruct H as [H | H]; [discriminate H|]); exact H.

Lemma output_keys_preserved_witness :
  safe_load (world_of (Returns answer_ok) two_verses) = Returns two_verses
  /\ NoDup (keys two_verses)
  /\ written (snd (run before_sloka after_sloka (world_of (Returns answer_ok) two_verses)))
     = Some output_ok
  /\ keys output_ok = keys two_verses.
Proof.
  assert (NoDup (keys two_verses)) as Hnd by distinct.
  split; [reflexivity|]. split; [exact Hnd|]. split; [vm_compute; reflexivity|].
  apply (output_keys_preserved before_sloka after_sloka
           (world_of (Returns answer_ok) two_verses) two_verses output_ok);
    [reflexivity | exact Hnd | vm_compute; reflexivity].
Defined.

Lemma malformed_answer_gives_empty_witness :
  messages_create (world_of (Returns (py "I cannot parse this verse.")) two_verses)
    (prompt before_sloka after_sloka verse1)
  = Returns (py "I cannot parse this verse.")
  /\ json_loads (strip_fences (strip (py "I cannot parse this verse."))) = None
  /\ parse_sloka_with_claude before_sloka after_sloka
       (world_of (Returns (py "I cannot parse this verse.")) two_verses) verse1 initial
     = (Returns empty_result, record_call (prompt before_sloka after_sloka verse1) initial).
Proof.
  split; [reflexivity|]. split; [vm_compute; reflexivity|].
  apply (malformed_answer_gives_empty before_sloka after_sloka
           (world_of (Returns (py "I cannot parse this verse.")) two_verses)
           verse1 (py "I cannot parse this verse.") initial);
    [reflexivity | vm_compute; reflexivity].
Defined.

Lemma generic_fence_same_structure_witness :
  json_loads (js "{'entries': [{'head': 'a'}]}")
  = Some (PyDict [(py "entries", PyList [PyDict [(py "head", PyStr (py "a"))]])])
  /\ parse_response (fenced (js "{'entries': [{'head': 'a'}]}"))
     = parse_response (js "{'entries': [{'head': 'a'}]}")
  /\ parse_response (js "{'entries': [{'head': 'a'}]}")
     = PyDict [(py "entries", PyList [PyDict [(py "head", PyStr (py "a"))]])].
Proof.
  split; [vm_compute; reflexivity|].
  apply (generic_fence_same_structure (js "{'entries': [{'head': 'a'}]}")).
  vm_compute; reflexivity.
Defined.

(** C6 as stated fails: the answer opens with [```json] and has four
    lines, yet after the line slicing the text still starts with
    [```json]; the second test removes it and the parser gives [[1]],
    where generic stripping alone gives no entries. *)
Lemma json_check_fires_after_slicing :
  startswith answer_two_fences json_fence = true
  /\ length (split newline answer_two_fences) = 4%nat
  /\ startswith (generic_fence_branch answer_two_fences) json_fence = true
  /\ parse_response answer_two_fences = PyList [PyInt 1]
  /\ parse_response_generic_only answer_two_fences = empty_result.
Proof. repeat split; vm_compute; reflexivity. Qed.

Lemma json_check_idle_after_slicing_witness :
  startswith (strip answer_ok) json_fence = true
  /\ (2 < length (split newline (strip answer_ok)))%nat
  /\ startswith (nth 1 (split newline (strip answer_ok)) []) json_fence = false
  /\ messages_create (world_of (Returns answer_ok) two_verses)
       (Pipeline.prompt before_sloka after_sloka verse1) = Returns answer_ok
  /\ startswith (generic_fence_branch (strip answer_ok)) json_fence = false
  /\ parse_response answer_ok = parse_response_generic_only answer_ok
  /\ Pipeline.parse_sloka_with_claude before_sloka after_sloka
       (world_of (Returns answer_ok) two_verses) verse1 initial
     = (Returns (parse_response_generic_only answer_ok),
        record_call (Pipeline.prompt before_sloka after_sloka verse1) initial).
Proof.
  assert (startswith (strip answer_ok) json_fence = true) as Hj
    by (vm_compute; reflexivity).
  assert (2 < length (split newline (strip answer_ok)))%nat as Hl
    by (vm_compute; lia).
  assert (startswith (nth 1 (split newline (strip answer_ok)) []) json_fence = false)
    as H2 by (vm_compute; reflexivity).
  split; [exact Hj|]. split; [exact Hl|]. split; [exact H2|].
  split; [reflexivity|].
  destruct (json_check_idle_after_slicing before_sloka after_sloka answer_ok Hj Hl)
    as (_ & _ & Hidle).
  destruct (Hidle H2) as (Hs & _ & Hp & Hrun).
  split; [exact Hs|]. split; [exact Hp|].
  exact (Hrun (world_of (Returns answer_ok) two_verses) verse1 initial eq_refl).
Defined.

(** C7 as stated fails: the input file exists and the client is
    built, yet the status is 1, when the output file cannot be written
    and when the model answers [[]], on which [parsed.get] raises. *)
Lemma exit_status_one_after_setup :
  input_exists (no_output (world_of (Returns answer_ok) two_verses)) = true
  /\ AnthropicVertex (no_output (world_of (Returns answer_ok) two_verses)) = Returns tt
  /\ fst (run before_sloka after_sloka (no_output (world_of (Returns answer_ok) two_verses)))
     = 1%Z
  /\ input_exists (world_of (Returns (js "[]")) two_verses) = true
  /\ AnthropicVertex (world_of (Returns (js "[]")) two_verses) = Returns tt
  /\ run before_sloka after_sloka (world_of (Returns (js "[]")) two_verses)
     = (1%Z, {| calls := [prompt before_sloka after_sloka verse1]; written := None |}).
Proof. repeat split; vm_compute; reflexivity. Qed.

Lemma exit_status_of_run_witness :
  run before_sloka after_sloka (no_input (world_of (Returns answer_ok) two_verses))
  = (1%Z, initial)
  /\ run before_sloka after_sloka (no_client (world_of (Returns answer_ok) two_verses))
     = (1%Z, initial)
  /\ fst (run before_sloka after_sloka (world_of (Returns answer_ok) two_verses)) = 0%Z
  /\ written (snd (run before_sloka after_sloka (world_of (Returns answer_ok) two_verses)))
     = Some output_ok.
Proof.
  split; [|split].
  - apply (proj1 (exit_status_of_run before_sloka after_sloka
                    (no_input (world_of (Returns answer_ok) two_verses)))).
    reflexivity.
  - apply (proj1 (proj2 (exit_status_of_run before_sloka after_sloka
                           (no_client (world_of (Returns answer_ok) two_verses))))
             two_verses OtherException); reflexivity.
  - apply (proj2 (proj2 (exit_status_of_run before_sloka after_sloka
                           (world_of (Returns answer_ok) two_verses)))
             two_verses output_ok
             (snd (enrich_loop before_sloka after_sloka
                     (world_of (Returns answer_ok) two_verses) two_verses [] initial)));
      reflexivity.
Defined.

Lemma output_ignores_metadata_witness :
  keys two_verses = keys two_verses'
  /\ run before_sloka after_sloka
       (with_input (world_of (Returns answer_ok) []) two_verses)
     = run before_sloka after_sloka
         (with_input (world_of (Returns answer_ok) []) two_verses').
Proof.
  split; [reflexivity|].
  apply (output_ignores_metadata before_sloka after_sloka
           (world_of (Returns answer_ok) []) two_verses two_verses').
  reflexivity.
Defined.

Lemma non_object_answer_aborts_witness :
  messages_create (world_of (Returns (js "[1, 2]")) two_verses)
    (prompt before_sloka after_sloka verse2) = Returns (js "[1, 2]")
  /\ json_loads (strip_fences (strip (js "[1, 2]"))) = Some (PyList [PyInt 1; PyInt 2])
  /\ (forall d, PyList [PyInt 1; PyInt 2] <> PyDict d)
  /\ insert_verify (PyList [PyInt 1; PyInt 2]) = Raises AttributeError
  /\ exists e st,
       main before_sloka after_sloka (world_of (Returns (js "[1, 2]")) two_verses) initial
       = (Raises e, st) /\ written st = None.
Proof.
  assert (forall d, PyList [PyInt 1; PyInt 2] <> PyDict d) as Hv by (intros d; discriminate).
  split; [reflexivity|]. split; [vm_compute; reflexivity|]. split; [exact Hv|].
  destruct (non_object_answer_aborts before_sloka after_sloka
              (world_of (Returns (js "[1, 2]")) two_verses)
              verse2 (js "[1, 2]") (PyList [PyInt 1; PyInt 2]))
    as (_ & Hi & _ & Hrun); [reflexivity | vm_compute; reflexivity | exact Hv |].
  split; [exact Hi|].
  apply (Hrun two_verses); try reflexivity.
  right. left. reflexivity.
Defined.

Lemma inline_json_fence_extracts_witness :
  json_loads one_line = Some one_entry
  /\ ~ In newline one_line
  /\ messages_create (world_of (Returns (json_fenced_inline one_line)) two_verses)
       (Pipeline.prompt before_sloka after_sloka verse1)
     = Returns (json_fenced_inline one_line)
  /\ parse_response (json_fenced_inline one_line) = one_entry
  /\ Pipeline.parse_sloka_with_claude before_sloka after_sloka
       (world_of (Returns (json_fenced_inline one_line)) two_verses) verse1 initial
     = (Returns one_entry,
        record_call (Pipeline.prompt before_sloka after_sloka verse1) initial).
Proof.
  assert (json_loads one_line = Some one_entry) as Hj by (vm_compute; reflexivity).
  assert (~ In newline one_line) as Hn by not_in.
  split; [exact Hj|]. split; [exact Hn|]. split; [reflexivity|].
  destruct (inline_json_fence_extracts before_sloka after_sloka one_line one_entry Hj Hn)
    as (_ & _ & _ & Hp & Hrun).
  split; [exact Hp|].
  exact (Hrun (world_of (Returns (json_fenced_inline one_line)) two_verses)
           verse1 initial eq_refl).
Defined.

(* ================================================================== *)
(** * Further properties of the script *)
(* ================================================================== *)

Module EntryFacts.

Import Str Val Json Pipeline StrFacts DictFacts PipelineFacts.

Lemma head_not_verify : Str.eqb (py "verify") (py "head") = false.
Proof. reflexivity. Qed.

Lemma keys_filter_in (f : pystr * pyval -> bool) (d : dict pyval) (k : pystr) :
  In k (keys (filter f d)) -> In k (keys d).
Proof.
  unfold keys. rewrite !in_map_iff. intros [kv [E H]].
  apply filter_In in H as [H _]. now exists kv.
Qed.

Lemma keys_filter_nodup (f : pystr * pyval -> bool) (d : dict pyval) :
  NoDup (keys d) -> NoDup (keys (filter f d)).
Proof.
  induction d as [|[k v] d IH]; simpl; intros H; [constructor|].
  inversion H as [|? ? Hk Hd]; subst.
  destruct (f (k, v)); simpl; [|now apply IH].
  constructor; [|now apply IH]. intros K. apply Hk. now apply keys_filter_in in K.
Qed.

Lemma other_field_keys (d : dict pyval) (k : pystr) :
  In k (keys (filter other_field d)) -> k <> py "head" /\ k <> py "verify".
Proof.
  unfold keys. rewrite in_map_iff. intros [[k' v] [E H]]. simpl in E. subst k'.
  apply filter_In in H as [_ H]. unfold other_field in H. simpl in H.
  apply andb_prop in H as [H1 H2].
  apply negb_true_iff in H1, H2. apply eqb_neq in H1, H2. now split.
Qed.

Lemma filter_other_field_twice (d : dict pyval) :
  filter other_field (filter other_field d) = filter other_field d.
Proof.
  induction d as [|kv d IH]; simpl; [reflexivity|].
  destruct (other_field kv) eqn:E; simpl; [|assumption].
  now rewrite E, IH.
Qed.

(** The loop of lines 154-156 from a [new_entry] that starts with
    [head] and [verify]: [verify] takes the value the entry has for it,
    every field but those two goes last. *)
Lemma new_entry_loop (d : dict pyval) :
  forall (h x : pyval) (tail : dict pyval),
    NoDup (keys d) ->
    (forall k, In k (keys d) -> ~ In k (keys tail)) ->
    fold_left
      (fun acc kv =>
         if negb (Str.eqb (fst kv) (py "head"))
         then dict_set acc (fst kv) (snd kv)
         else acc) d ((py "head", h) :: (py "verify", x) :: tail)
    = (py "head", h)
        :: (py "verify", match dict_get d (py "verify") with Some v => v | None => x end)
        :: tail ++ filter other_field d.
Proof.
  induction d as [|[k v] d IH]; intros h x tail Hd Ht;
    cbn [fold_left filter dict_get dict_set fst snd].
  - now rewrite app_nil_r.
  - inversion Hd as [|? ? Hk Hd']; subst.
    assert (forall k', In k' (keys d) -> ~ In k' (keys tail)) as Ht'
      by (intros k' Hk'; apply Ht; now right).
    unfold other_field at 1. cbn [fst snd].
    destruct (Str.eqb k (py "head")) eqn:Eh; cbn [negb andb].
    + apply eqb_eq in Eh. subst k. rewrite head_not_verify. now apply IH.
    + destruct (Str.eqb k (py "verify")) eqn:Ev; cbn [negb].
      * apply eqb_eq in Ev. subst k. rewrite eqb_refl.
        rewrite IH by assumption.
        apply dict_get_none in Hk. now rewrite Hk.
      * assert (Str.eqb (py "verify") k = false) as Ev'.
        { apply eqb_neq. apply eqb_neq in Ev. congruence. }
        rewrite Ev'.
        rewrite (dict_set_new tail k v) by (apply Ht; now left).
        rewrite IH; [now rewrite <- app_assoc|assumption|].
        intros k' Hk' K. unfold keys in K. rewrite map_app, in_app_iff in K.
        destruct K as [K | [K | []]]; [now apply (Ht' k')|].
        simpl in K. subst k'. contradiction.
Qed.

Lemma new_entry_rebuilt (d : dict pyval) (h : pyval) :
  NoDup (keys d) ->
  new_entry d h
  = (py "head", h) :: (py "verify", own_verify d) :: filter other_field d.
Proof.
  intros Hd. unfold new_entry, own_verify.
  now rewrite (new_entry_loop d h (PyBool false) [] Hd) by (intros k _ []).
Qed.

Lemma rebuilt_nodup (d : dict pyval) (h x : pyval) :
  NoDup (keys d) ->
  NoDup (keys ((py "head", h) :: (py "verify", x) :: filter other_field d)).
Proof.
  intros Hd. simpl. constructor; [|constructor].
  - intros [K | K]; [discriminate|]. now apply other_field_keys in K as [K _].
  - intros K. now apply other_field_keys in K as [_ K].
  - now apply keys_filter_nodup.
Qed.

(** The loop body on an entry it has rebuilt. *)
Lemma entry_rebuilt_again (d : dict pyval) (h : pyval) :
  NoDup (keys d) ->
  visit (PyDict ((py "head", h) :: (py "verify", own_verify d) :: filter other_field d))
  = Returns (PyDict ((py "head", h) :: (py "verify", own_verify d)
                       :: filter other_field d)).
Proof.
  intros Hd. cbn [visit].
  assert (dict_get ((py "head", h) :: (py "verify", own_verify d) :: filter other_field d)
            (py "head") = Some h) as -> by reflexivity.
  rewrite new_entry_rebuilt by (now apply rebuilt_nodup).
  assert (own_verify ((py "head", h) :: (py "verify", own_verify d) :: filter other_field d)
          = own_verify d) as -> by reflexivity.
  assert (filter other_field
            ((py "head", h) :: (py "verify", own_verify d) :: filter other_field d)
          = filter other_field d) as ->.
  { change (filter other_field
              ((py "head", h) :: (py "verify", own_verify d) :: filter other_field d))
      with (filter other_field (filter other_field d)).
    apply filter_other_field_twice. }
  reflexivity.
Qed.

(** ** The loop over the entries *)

Lemma visit_all_length (es : list pyval) :
  forall es', visit_all es = Returns es' -> length es' = length es.
Proof.
  induction es as [|e es IH]; simpl; intros es' H.
  - now injection H as <-.
  - destruct (visit e); [|discriminate].
    destruct (visit_all es) as [r|]; [|discriminate].
    injection H as <-. simpl. now rewrite (IH r eq_refl).
Qed.

Lemma visit_dict_returns (d : dict pyval) : exists e', visit (PyDict d) = Returns e'.
Proof. simpl. destruct (dict_get d (py "head")); eauto. Qed.

Lemma visit_all_dicts (es : list pyval) :
  forallb is_dict es = true ->
  exists es', visit_all es = Returns es'
              /\ Forall2 (fun e e' => visit e = Returns e') es es'.
Proof.
  induction es as [|e es IH]; simpl; intros H.
  - exists []. split; [reflexivity|constructor].
  - apply andb_prop in H as [He Hes].
    destruct (IH Hes) as (es' & E & F).
    destruct e; try discriminate.
    destruct (visit_dict_returns d) as [e' Ee].
    exists (e' :: es'). rewrite Ee, E. split; [reflexivity|now constructor].
Qed.

Lemma visit_all_chars (s : pystr) :
  exists items, visit_all (List.map (fun c => PyStr [c]) s) = Returns items.
Proof.
  induction s as [|c s [items IH]]; cbn [List.map visit_all visit].
  - now exists [].
  - assert (contains [c] (py "head") = false) as ->
      by (simpl; now rewrite andb_false_r).
    rewrite IH. eauto.
Qed.

(** ** Dictionaries *)

Lemma dict_set_keys_old {V : Type} (d : dict V) (k : pystr) (v v' : V) :
  dict_get d k = Some v' -> keys (dict_set d k v) = keys d.
Proof.
  induction d as [|[k0 v0] d IH]; simpl; [discriminate|].
  destruct (Str.eqb k k0); [reflexivity|].
  intros H. simpl. now rewrite IH.
Qed.

Lemma dict_get_set {V : Type} (d : dict V) (k k' : pystr) (v : V) :
  dict_get (dict_set d k v) k'
  = if Str.eqb k' k then Some v else dict_get d k'.
Proof.
  induction d as [|[k0 v0] d IH]; simpl.
  - destruct (Str.eqb k' k); reflexivity.
  - destruct (Str.eqb k k0) eqn:E; simpl.
    + apply eqb_eq in E. subst k0. now destruct (Str.eqb k' k).
    + rewrite IH. destruct (Str.eqb k' k0) eqn:E'; [|reflexivity].
      apply eqb_eq in E'. subst k0.
      destruct (Str.eqb k' k) eqn:E2; [|reflexivity].
      apply eqb_eq in E2. subst k'. now rewrite eqb_refl in E.
Qed.

End EntryFacts.

Module EdgeFacts.

Import Str Val Json Pipeline StrFacts JsonFacts ScanFacts FuelFacts FenceFacts.
Local Open Scope N_scope.

(** ** Stripping *)

Lemma lstrip_keeps_last (x : pystr) (c : N) :
  isspace c = false -> exists p, lstrip (x ++ [c]) = p ++ [c].
Proof.
  intros Hc. induction x as [|a x [p IH]]; simpl.
  - rewrite Hc. now exists [].
  - destruct (isspace a); [now exists p|]. now exists (a :: x).
Qed.

(** [strip] keeps a first character that is not white space. *)
Lemma strip_keeps_first (c : N) (s : pystr) :
  isspace c = false -> exists t, strip (c :: s) = c :: t.
Proof.
  intros Hc. unfold strip. rewrite lstrip_solid by assumption.
  unfold rstrip. simpl rev.
  destruct (lstrip_keeps_last (rev s) c Hc) as [p ->].
  exists (rev p). now rewrite rev_app_distr.
Qed.

Lemma endswith_inv (s p : pystr) :
  endswith s p = true -> exists t, s = t ++ p.
Proof.
  unfold endswith. intros H. apply startswith_inv in H as [t E].
  exists (rev t). apply (f_equal (@rev N)) in E.
  now rewrite rev_involutive, rev_app_distr, rev_involutive in E.
Qed.

Lemma lstrip_head (s : pystr) (c : N) (t : pystr) :
  lstrip s = c :: t -> isspace c = false.
Proof.
  induction s as [|a s IH]; simpl; [discriminate|].
  destruct (isspace a) eqn:E; [assumption|].
  intros H. now injection H as <- _.
Qed.

(** What [strip] returns is empty or has no white space at either
    end. *)
Lemma strip_shape (s : pystr) :
  strip s = []
  \/ exists a z, isspace a = false /\ isspace z = false
                 /\ (exists m, strip s = a :: m) /\ (exists m, strip s = m ++ [z]).
Proof.
  unfold strip. destruct (lstrip s) as [|a m] eqn:E; [now left|].
  right. pose proof (lstrip_head s a m E) as Ha.
  destruct (strip_keeps_first a m Ha) as [t Ht].
  unfold strip in Ht. rewrite lstrip_solid in Ht by assumption.
  unfold rstrip in *.
  destruct (lstrip (rev (a :: m))) as [|z y] eqn:Ey.
  { simpl in Ht. discriminate. }
  exists a, z. split; [assumption|]. split; [exact (lstrip_head _ _ _ Ey)|].
  split; [now exists t|]. exists (rev y). reflexivity.
Qed.

Lemma strip_strip (s : pystr) : strip (strip s) = strip s.
Proof.
  destruct (strip_shape s) as [-> | (a & z & Ha & Hz & Hm & Hm')]; [reflexivity|].
  now apply (strip_solid (strip s) a z).
Qed.

(** ** What [json.loads] refuses *)

Lemma json_loads_first (J : pystr) (v : pyval) :
  json_loads J = Some v -> exists a t, J = a :: t /\ a <> backtick.
Proof.
  intros H.
  destruct (json_loads_shape _ _ H)
    as (w1 & mid & w2 & a & z & Es & Hw1 & _ & [_ Ha] & _ & [m Hm] & _).
  destruct Hw1 as [|c w1 Hc _].
  - exists a, (m ++ w2). split; [|assumption]. now rewrite Es, Hm.
  - exists c, (w1 ++ mid ++ w2). split; [now rewrite Es|].
    intros ->. discriminate.
Qed.

Lemma json_loads_backtick (s : pystr) : json_loads (backtick :: s) = None.
Proof.
  destruct (json_loads (backtick :: s)) as [v|] eqn:E; [|reflexivity].
  apply json_loads_first in E as (a & t & E & Ha). congruence.
Qed.

Lemma json_loads_stripped_backtick (s : pystr) :
  json_loads (strip (backtick :: s)) = None.
Proof.
  destruct (strip_keeps_first backtick s eq_refl) as [t ->].
  apply json_loads_backtick.
Qed.

(** ** Answers of three lines or more *)

Lemma framed_lines (first body last : pystr) :
  ~ In newline first -> ~ In newline last ->
  split newline (framed first body last) = first :: split newline body ++ [last].
Proof.
  intros Hf Hl. unfold framed. cbn [app].
  change (first ++ newline :: body ++ newline :: last)
    with (first ++ newline :: (body ++ newline :: last)).
  rewrite !split_app.
  now rewrite (split_no_sep newline first Hf), (split_no_sep newline last Hl).
Qed.

(** The line slicing drops the first and the last line. *)
Lemma framed_sliced (first body last : pystr) :
  startswith first fence = true ->
  ~ In newline first -> ~ In newline last ->
  generic_fence_branch (framed first body last) = body.
Proof.
  intros Hs Hf Hl. unfold generic_fence_branch.
  assert (startswith (framed first body last) fence = true) as ->.
  { apply startswith_inv in Hs as [t ->]. unfold framed.
    rewrite <- app_assoc. apply startswith_app. }
  rewrite framed_lines by assumption.
  replace (2 <? length (first :: split newline body ++ [last]))%nat with true.
  2:{ symmetry. apply Nat.ltb_lt. cbn [length]. rewrite length_app. simpl.
      pose proof (split_nonempty newline body).
      destruct (split newline body); [contradiction|simpl; lia]. }
  rewrite slice_inner. apply join_split.
Qed.

Lemma strip_tagged (tag J : pystr) :
  strip (framed (fence ++ tag) J fence) = framed (fence ++ tag) J fence.
Proof.
  apply (strip_solid _ backtick backtick); try reflexivity.
  - now exists (py "``" ++ tag ++ [newline] ++ J ++ [newline] ++ fence).
  - exists ((fence ++ tag) ++ [newline] ++ J ++ [newline] ++ py "``").
    unfold framed. change fence with (py "``" ++ [backtick]) at 2.
    now rewrite <- !app_assoc.
Qed.

(** ** Answers of one or two lines *)

(** Without the line slicing and without the json tag, a text that
    starts with a fence is never JSON once the closing fence is cut. *)
Lemma short_fence_refused (r : pystr) :
  startswith r fence = true ->
  json_loads (strip (closing_fence_branch r)) = None.
Proof.
  intros Hs. apply startswith_inv in Hs as [t Er].
  unfold closing_fence_branch. destruct (endswith r fence) eqn:E.
  - apply endswith_inv in E as [s Es].
    rewrite Es at 1. rewrite (slice_until s fence (-3)%Z) by reflexivity.
    destruct s as [|c s]; [reflexivity|].
    assert (c = backtick) as -> by (rewrite Es in Er; now injection Er).
    apply json_loads_stripped_backtick.
  - rewrite Er. apply (json_loads_stripped_backtick (py "``" ++ t)).
Qed.

End EdgeFacts.

Module RunFacts.

Import Str Val Json Pipeline StrFacts DictFacts PipelineFacts.

Section Facts.

Variables prompt_head prompt_tail : pystr.

#[local] Abbreviation prompt := (Pipeline.prompt prompt_head prompt_tail).
#[local] Abbreviation enrich_sloka := (Pipeline.enrich_sloka prompt_head prompt_tail).
#[local] Abbreviation enrich_loop := (Pipeline.enrich_loop prompt_head prompt_tail).
#[local] Abbreviation main := (Pipeline.main prompt_head prompt_tail).
#[local] Abbreviation run := (Pipeline.run prompt_head prompt_tail).

(** The calls of the loop: one for each verse it reaches, in order. *)
Lemma enrich_loop_calls (w : world) (items : dict pyval) :
  forall acc st,
    exists n, calls (snd (enrich_loop w items acc st))
              = calls st ++ List.map prompt (firstn n (keys items)).
Proof.
  induction items as [|[k m] rest IH]; intros acc st.
  - exists 0%nat. simpl. now rewrite app_nil_r.
  - rewrite (enrich_loop_cons prompt_head prompt_tail).
    destruct (fst (enrich_sloka w k initial)) as [v|e].
    + destruct (IH (dict_set acc k v) (record_call (prompt k) st)) as [n ->].
      exists (S n). simpl. now rewrite <- app_assoc.
    + exists 1%nat. reflexivity.
Qed.

Lemma enrich_loop_calls_all (w : world) (items : dict pyval) :
  forall acc st out st',
    enrich_loop w items acc st = (Returns out, st') ->
    calls st' = calls st ++ List.map prompt (keys items).
Proof.
  induction items as [|[k m] rest IH]; intros acc st out st' H.
  - injection H as _ <-. simpl. now rewrite app_nil_r.
  - rewrite (enrich_loop_cons prompt_head prompt_tail) in H.
    destruct (fst (enrich_sloka w k initial)) as [v|e]; [|discriminate].
    apply IH in H. rewrite H. simpl. now rewrite <- app_assoc.
Qed.

(** A loop that returns went through a turn that returned for every
    verse. *)
Lemma enrich_loop_turns (w : world) (items : dict pyval) :
  forall acc st out st',
    enrich_loop w items acc st = (Returns out, st') ->
    forall sloka, In sloka (keys items) ->
      exists v, fst (enrich_sloka w sloka initial) = Returns v.
Proof.
  induction items as [|[k m] rest IH]; intros acc st out st' H sloka Hin;
    [contradiction|].
  rewrite (enrich_loop_cons prompt_head prompt_tail) in H.
  destruct (fst (enrich_sloka w k initial)) as [v|e] eqn:E; [|discriminate].
  destruct Hin as [<- | Hin]; [now exists v|].
  now apply (IH _ _ _ _ H).
Qed.

(** The turn of a verse the model answers. *)
Lemma enrich_sloka_text (w : world) (sloka text : pystr) :
  messages_create w (prompt sloka) = Returns text ->
  fst (enrich_sloka w sloka initial) = insert_verify (parse_response text).
Proof.
  intros H. unfold Pipeline.enrich_sloka, bind, lift.
  rewrite (parse_sloka_text _ _ _ _ _ _ H).
  now destruct (insert_verify (parse_response text)).
Qed.

(** The three ways [main] ends: before the loop, in the loop, or
    after it with or without the output written. *)
Lemma main_cases (w : world) :
  main w initial = (Raises (SystemExit 1), initial)
  \/ (exists e, main w initial = (Raises e, initial))
  \/ (exists data,
        safe_load w = Returns data
        /\ main w initial
           = match enrich_loop w data [] initial with
             | (Returns out, st) => write_output w out st
             | (Raises e, st) => (Raises e, st)
             end).
Proof.
  unfold Pipeline.main, Pipeline.enrich_yaml, bind, lift, make_client.
  destruct (input_exists w); [|now left].
  destruct (safe_load w) as [data|e]; [|right; left; now exists e].
  destruct (AnthropicVertex w) as [[]|e].
  - right. right. exists data. split; [reflexivity|]. unfold ret.
    now destruct (enrich_loop w data [] initial) as [[out|e] st].
  - right. left. destruct (is_Exception e); eexists; reflexivity.
Qed.

End Facts.

End RunFacts.

Import Str Val Json Pipeline.
Import StrFacts JsonFacts ScanFacts TrimFacts FuelFacts FenceFacts DictFacts PipelineFacts.
Import EntryFacts EdgeFacts RunFacts.
Import Examples.

Section Further.

Variables prompt_head prompt_tail : pystr.

#[local] Abbreviation prompt := (Pipeline.prompt prompt_head prompt_tail).
#[local] Abbreviation parse_sloka_with_claude :=
  (Pipeline.parse_sloka_with_claude prompt_head prompt_tail).
#[local] Abbreviation enrich_sloka := (Pipeline.enrich_sloka prompt_head prompt_tail).
#[local] Abbreviation enrich_loop := (Pipeline.enrich_loop prompt_head prompt_tail).
#[local] Abbreviation main := (Pipeline.main prompt_head prompt_tail).
#[local] Abbreviation run := (Pipeline.run prompt_head prompt_tail).

(** X1.  An entry with a [head] field comes out of the loop body as
    [head], then [verify], then every other field with its value, in
    the order the entry had them.  [verify] is [False], unless the
    entry had a [verify] field of its own, whose value it keeps. *)
Theorem entry_rebuilt (d : dict pyval) (h : pyval) :
  NoDup (keys d) ->
  dict_get d (py "head") = Some h ->
  visit (PyDict d)
  = Returns (PyDict ((py "head", h) :: (py "verify", own_verify d)
                       :: filter other_field d)).
Proof.
  intros Hd Hh. cbn [visit]. rewrite Hh. now rewrite new_entry_rebuilt.
Qed.

(** X2.  The loop body changes nothing to an entry it has already
    rebuilt: a second pass over the same entry leaves it as the first
    pass made it. *)
Theorem visit_twice (e e' : pyval) :
  (forall d, e = PyDict d -> NoDup (keys d)) ->
  visit e = Returns e' ->
  visit e' = Returns e'.
Proof.
  intros Hd H. destruct e; try discriminate.
  - cbn [visit] in H. destruct (contains s (py "head")) eqn:E; [discriminate|].
    injection H as <-. cbn [visit]. now rewrite E.
  - cbn [visit] in H. destruct (existsb (is_str (py "head")) l) eqn:E; [discriminate|].
    injection H as <-. cbn [visit]. now rewrite E.
  - specialize (Hd d eq_refl). cbn [visit] in H.
    destruct (dict_get d (py "head")) as [h|] eqn:Eh.
    + injection H as <-. rewrite new_entry_rebuilt by assumption.
      rewrite (entry_rebuilt_again d h Hd). reflexivity.
    + injection H as <-. cbn [visit]. now rewrite Eh.
Qed.

(** X3.  When the insertion of the flags returns, [parsed] was a dict
    and still is, with the same keys in the same order and the same
    value under every key but [entries]; a list of entries keeps its
    length. *)
Theorem insert_verify_keeps_shape (parsed p : pyval) :
  insert_verify parsed = Returns p ->
  exists d d',
    parsed = PyDict d /\ p = PyDict d'
    /\ keys d' = keys d
    /\ (forall k, k <> py "entries" -> dict_get d' k = dict_get d k)
    /\ (forall es, dict_get d (py "entries") = Some (PyList es) ->
          exists es', dict_get d' (py "entries") = Some (PyList es')
                      /\ length es' = length es).
Proof.
  intros H. destruct parsed; try discriminate.
  assert (p = PyDict d ->
          (forall es, dict_get d (py "entries") <> Some (PyList es)) ->
          exists d0 d',
            PyDict d = PyDict d0 /\ p = PyDict d' /\ keys d' = keys d0
            /\ (forall k, k <> py "entries" -> dict_get d' k = dict_get d0 k)
            /\ (forall es, dict_get d0 (py "entries") = Some (PyList es) ->
                  exists es', dict_get d' (py "entries") = Some (PyList es')
                              /\ length es' = length es)) as same.
  { intros -> Hno. exists d, d. repeat split; try reflexivity.
    intros es Hes. now destruct (Hno es). }
  cbn [insert_verify] in H.
  destruct (dict_get d (py "entries")) as [v|] eqn:E.
  2:{ injection H as <-. apply same; [reflexivity|].
      intros es; try rewrite E; discriminate. }
  destruct v as [ | b | n | t | s | l | d0]; cbn [iterate] in H; try discriminate.
  { destruct (visit_all (List.map (fun c => PyStr [c]) s)); [|discriminate].
    injection H as <-. apply same; [reflexivity|].
    intros es; try rewrite E; discriminate. }
  2:{ destruct (visit_all (List.map (fun kv => PyStr (fst kv)) d0)); [|discriminate].
      injection H as <-. apply same; [reflexivity|].
      intros es; try rewrite E; discriminate. }
  destruct (visit_all l) as [es'|] eqn:V; [|discriminate]. injection H as <-.
  exists d, (dict_set d (py "entries") (PyList es')).
  split; [reflexivity|]. split; [reflexivity|].
  split; [now apply (dict_set_keys_old d (py "entries") (PyList es') (PyList l))|].
  split.
  - intros k Hk. rewrite dict_get_set. apply eqb_neq in Hk. now rewrite Hk.
  - intros es Hes. rewrite E in Hes. injection Hes as <-. exists es'.
    rewrite dict_get_set, eqb_refl. split; [reflexivity|].
    now apply visit_all_length.
Qed.

(** X4.  On a dict whose [entries] is a list of dicts the insertion of
    the flags raises nothing: it returns the same dict with, in place
    of every entry, what the loop body makes of it. *)
Theorem dict_entries_never_raise (d : dict pyval) (es : list pyval) :
  dict_get d (py "entries") = Some (PyList es) ->
  forallb is_dict es = true ->
  exists es',
    insert_verify (PyDict d)
    = Returns (PyDict (dict_set d (py "entries") (PyList es')))
    /\ Forall2 (fun e e' => visit e = Returns e') es es'.
Proof.
  intros He Hd. destruct (visit_all_dicts es Hd) as (es' & V & F).
  exists es'. cbn [insert_verify]. rewrite He, V. now split.
Qed.

(** X5.  The model is called once for each verse the loop reaches, in
    the order of the input mapping, and for no other text: the calls
    of a run are the prompts of the first verses of the mapping, and
    of all of them when the output is written. *)
Theorem one_call_per_verse (w : world) (data : dict pyval) :
  safe_load w = Returns data ->
  (exists n, calls (snd (run w)) = List.map prompt (firstn n (keys data)))
  /\ (forall out, written (snd (run w)) = Some out ->
        calls (snd (run w)) = List.map prompt (keys data)).
Proof.
  intros Hl.
  assert (snd (run w) = snd (main w initial)) as ->
    by (unfold Pipeline.run; now destruct (main w initial)).
  split.
  - destruct (main_cases prompt_head prompt_tail w) as [E | [[e E] | (data' & Hl' & E)]];
      try (rewrite E; now exists 0%nat).
    rewrite Hl in Hl'. injection Hl' as <-. rewrite E.
    destruct (enrich_loop_calls prompt_head prompt_tail w data [] initial) as [n Hn].
    exists n. destruct (enrich_loop w data [] initial) as [[out|e] st]; [|exact Hn].
    unfold write_output. now destruct (dump w out).
  - intros out Hw.
    pose proof (main_written prompt_head prompt_tail w out Hw)
      as (data' & st & Hl' & Hloop).
    rewrite Hl in Hl'. injection Hl' as <-.
    destruct (main_cases prompt_head prompt_tail w) as [E | [[e E] | (data2 & Hl2 & E)]];
      try (rewrite E in Hw; discriminate).
    rewrite Hl in Hl2. injection Hl2 as <-.
    rewrite E, Hloop. unfold write_output.
    pose proof (enrich_loop_calls_all prompt_head prompt_tail w data [] initial out st Hloop)
      as Hc.
    now destruct (dump w out).
Qed.

(** X6.  A run that stops before the output is reached (the input
    file is missing, its loading raises, the client cannot be built, or
    a turn of the loop over the verses raises) ends in an exception and
    has written nothing, however many verses it went through; a run
    that has written its output returned from [main] and has exit
    status 0.  An exception of the writing itself (lines 167-174) is
    left out: the output file may exist by then. *)
Theorem output_only_when_done (w : world) :
  (input_exists w = false
   \/ (exists e, safe_load w = Raises e)
   \/ (exists e, AnthropicVertex w = Raises e)
   \/ (exists data e st,
         safe_load w = Returns data
         /\ enrich_loop w data [] initial = (Raises e, st)) ->
   (exists e, fst (main w initial) = Raises e)
   /\ written (snd (run w)) = None)
  /\ (forall out, written (snd (run w)) = Some out ->
        fst (main w initial) = Returns tt /\ fst (run w) = 0%Z).
Proof.
  assert (snd (run w) = snd (main w initial)) as Es
    by (unfold Pipeline.run; now destruct (main w initial)).
  assert (fst (run w) = exit_status (fst (main w initial))) as Ef
    by (unfold Pipeline.run; now destruct (main w initial)).
  rewrite Es, Ef. split.
  - intros Hstop.
    unfold Pipeline.main, Pipeline.enrich_yaml, bind, lift, make_client.
    destruct (input_exists w); [|split; [eexists|]; reflexivity].
    destruct (safe_load w) as [data|e]; [|split; [eexists|]; reflexivity].
    destruct (AnthropicVertex w) as [[]|e];
      [|destruct (is_Exception e); (split; [eexists|]; reflexivity)].
    destruct Hstop as [H | [[e H] | [[e H] | (data' & e & st & H & Hloop)]]];
      try discriminate.
    injection H as <-. unfold ret.
    pose proof (enrich_loop_written prompt_head prompt_tail w data [] initial) as W.
    rewrite Hloop in W |- *. split; [now exists e|exact W].
  - destruct (main_cases prompt_head prompt_tail w) as [E | [[e E] | (data & Hl & E)]].
    + rewrite E. discriminate.
    + rewrite E. discriminate.
    + rewrite E.
      pose proof (enrich_loop_written prompt_head prompt_tail w data [] initial) as W.
      destruct (enrich_loop w data [] initial) as [[out|e] st]; simpl in W.
      * unfold write_output. destruct (dump w out) as [[]|e]; simpl.
        -- intros _ _. now split.
        -- rewrite W. discriminate.
      * simpl. rewrite W. discriminate.
Qed.

(** X7.  In the mapping a run writes, every verse the model answered
    holds the answer to its own prompt, parsed and with the flags
    inserted: the answers to the other verses do not reach it. *)
Theorem verse_holds_own_answer (w : world) (data out : dict pyval) (sloka text : pystr) :
  safe_load w = Returns data ->
  NoDup (keys data) ->
  written (snd (run w)) = Some out ->
  In sloka (keys data) ->
  messages_create w (prompt sloka) = Returns text ->
  exists v, insert_verify (parse_response text) = Returns v
            /\ dict_get out sloka = Some v.
Proof.
  intros Hl Hnd Hw Hin Hm.
  assert (snd (run w) = snd (main w initial)) as Es
    by (unfold Pipeline.run; now destruct (main w initial)).
  rewrite Es in Hw.
  apply main_written in Hw as (data' & st & Hl' & Hloop).
  rewrite Hl in Hl'. injection Hl' as <-.
  destruct (enrich_loop_turns prompt_head prompt_tail w data [] initial out st Hloop sloka Hin)
    as [v Hv].
  exists v. split.
  - now rewrite <- (enrich_sloka_text prompt_head prompt_tail w sloka text Hm).
  - exact (enrich_loop_get prompt_head prompt_tail w data [] initial out st sloka v
             Hnd Hloop Hin Hv).
Qed.

(** X8.  For a JSON text [J], of one line or more, the parser gives
    the value of [J] for [J] between a first line made of [```] and any
    tag ([```json] is one) and a last line [```]:
    [parse_sloka_with_claude] returns that value, after one call of the
    model, whenever the model replies with that answer. *)
Theorem tagged_fence_extracts (tag J : pystr) (v : pyval) :
  json_loads J = Some v ->
  ~ In newline tag ->
  generic_fence_branch (framed (fence ++ tag) J fence) = J
  /\ parse_response (framed (fence ++ tag) J fence) = v
  /\ forall (w : world) (sloka : pystr) (st : state),
       messages_create w (prompt sloka) = Returns (framed (fence ++ tag) J fence) ->
       parse_sloka_with_claude w sloka st
       = (Returns v, record_call (prompt sloka) st).
Proof.
  intros H Ht.
  assert (~ In newline (fence ++ tag)) as Hfirst.
  { rewrite in_app_iff. intros [K | K]; [now apply fence_no_newline|contradiction]. }
  assert (generic_fence_branch (framed (fence ++ tag) J fence) = J) as Hg
    by (apply framed_sliced;
        [apply startswith_app | exact Hfirst | exact fence_no_newline]).
  assert (parse_response (framed (fence ++ tag) J fence) = v) as Hp.
  { unfold parse_response, strip_fences.
    rewrite strip_tagged, Hg.
    destruct (json_text_no_fence _ _ H) as (_ & -> & ->).
    now rewrite (json_loads_strip _ _ H). }
  split; [exact Hg|]. split; [exact Hp|].
  intros w sloka st Hm.
  rewrite (parse_sloka_text prompt_head prompt_tail w sloka _ st Hm).
  now rewrite Hp.
Qed.

(** X9.  On an answer of three lines or more whose first line starts
    with [```], the line slicing drops the first line and the last one,
    whatever the last line holds, and keeps the lines between them as
    they were. *)
Theorem first_and_last_line_dropped (first body last : pystr) :
  startswith first fence = true ->
  ~ In newline first -> ~ In newline last ->
  generic_fence_branch (framed first body last) = body.
Proof. exact (framed_sliced first body last). Qed.

(** X10.  An answer of one or two lines that starts with [```] but
    not with [```json] keeps its opening fence, so that it is never
    decoded: the parser gives [{"entries": []}] whatever stands
    between the fences. *)
Theorem short_generic_fence_kept (text : pystr) :
  startswith (strip text) fence = true ->
  startswith (strip text) json_fence = false ->
  (length (split newline (strip text)) <= 2)%nat ->
  parse_response text = empty_result.
Proof.
  intros Hf Hj Hl. unfold parse_response, strip_fences.
  assert (generic_fence_branch (strip text) = strip text) as ->.
  { unfold generic_fence_branch. rewrite Hf.
    apply Nat.ltb_ge in Hl. now rewrite Hl. }
  unfold json_fence_branch. rewrite Hj.
  now rewrite (short_fence_refused (strip text) Hf).
Qed.

(** X12.  A dict without [entries], and a dict whose [entries] is a
    string, go through the insertion of the flags unchanged and
    without exception. *)
Theorem entries_absent_or_string_kept (d : dict pyval) :
  dict_get d (py "entries") = None
  \/ (exists s, dict_get d (py "entries") = Some (PyStr s)) ->
  insert_verify (PyDict d) = Returns (PyDict d).
Proof.
  intros [H | [s H]]; cbn [insert_verify]; rewrite H; [reflexivity|].
  cbn [iterate]. destruct (visit_all_chars s) as [items ->]. reflexivity.
Qed.

(** X13.  An answer whose text, once stripped, has no backtick at
    either end goes to [json.loads] as that stripped text: the three
    tests for fences remove nothing from it. *)
Theorem unfenced_answer_untouched (text : pystr) :
  startswith (strip text) [backtick] = false ->
  endswith (strip text) [backtick] = false ->
  strip_fences (strip text) = strip text.
Proof.
  intros Hs He. unfold strip_fences.
  assert (startswith (strip text) fence = false) as F1.
  { destruct (startswith (strip text) fence) eqn:E; [|reflexivity].
    apply startswith_inv in E as [t E]. rewrite E in Hs. discriminate. }
  assert (startswith (strip text) json_fence = false) as F2.
  { destruct (startswith (strip text) json_fence) eqn:E; [|reflexivity].
    apply json_fence_fence in E. congruence. }
  assert (endswith (strip text) fence = false) as F3.
  { destruct (endswith (strip text) fence) eqn:E; [|reflexivity].
    apply endswith_inv in E as [t E]. rewrite E in He.
    change fence with (py "``" ++ [backtick]) in He.
    rewrite app_assoc, endswith_app in He. discriminate. }
  unfold generic_fence_branch, json_fence_branch, closing_fence_branch.
  rewrite F1, F2, F3. apply strip_strip.
Qed.

End Further.

(** ** The further properties on examples *)

Lemma entry_rebuilt_witness :
  NoDup (keys entry_in)
  /\ dict_get entry_in (py "head") = Some (PyStr (py "a"))
  /\ visit (PyDict entry_in) = Returns (PyDict entry_out).
Proof.
  assert (NoDup (keys entry_in)) as Hnd by distinct.
  split; [exact Hnd|]. split; [reflexivity|].
  exact (entry_rebuilt entry_in (PyStr (py "a")) Hnd eq_refl).
Defined.

Lemma visit_twice_witness :
  (forall d, PyDict entry_in = PyDict d -> NoDup (keys d))
  /\ visit (PyDict entry_in) = Returns (PyDict entry_out)
  /\ visit (PyDict entry_out) = Returns (PyDict entry_out).
Proof.
  assert (forall d, PyDict entry_in = PyDict d -> NoDup (keys d)) as Hd.
  { intros d E. injection E as <-. distinct. }
  split; [exact Hd|]. split; [reflexivity|].
  exact (visit_twice (PyDict entry_in) (PyDict entry_out) Hd eq_refl).
Defined.

Lemma insert_verify_keeps_shape_witness :
  insert_verify (PyDict parsed_in) = Returns (PyDict parsed_out)
  /\ exists d d',
       PyDict parsed_in = PyDict d /\ PyDict parsed_out = PyDict d'
       /\ keys d' = keys d
       /\ (forall k, k <> py "entries" -> dict_get d' k = dict_get d k)
       /\ (forall es, dict_get d (py "entries") = Some (PyList es) ->
             exists es', dict_get d' (py "entries") = Some (PyList es')
                         /\ length es' = length es).
Proof.
  split; [reflexivity|].
  exact (insert_verify_keeps_shape (PyDict parsed_in) (PyDict parsed_out) eq_refl).
Defined.

Lemma dict_entries_never_raise_witness :
  dict_get parsed_in (py "entries") = Some (PyList [PyDict entry_in])
  /\ forallb is_dict [PyDict entry_in] = true
  /\ exists es',
       insert_verify (PyDict parsed_in)
       = Returns (PyDict (dict_set parsed_in (py "entries") (PyList es')))
       /\ Forall2 (fun e e' => visit e = Returns e') [PyDict entry_in] es'.
Proof.
  split; [reflexivity|]. split; [reflexivity|].
  exact (dict_entries_never_raise parsed_in [PyDict entry_in] eq_refl eq_refl).
Defined.

Lemma one_call_per_verse_witness :
  safe_load (world_of (Returns answer_ok) two_verses) = Returns two_verses
  /\ (exists n,
        calls (snd (run before_sloka after_sloka (world_of (Returns answer_ok) two_verses)))
        = List.map (prompt before_sloka after_sloka) (firstn n (keys two_verses)))
  /\ (forall out,
        written (snd (run before_sloka after_sloka (world_of (Returns answer_ok) two_verses)))
        = Some out ->
        calls (snd (run before_sloka after_sloka (world_of (Returns answer_ok) two_verses)))
        = List.map (prompt before_sloka after_sloka) (keys two_verses)).
Proof.
  split; [reflexivity|].
  exact (one_call_per_verse before_sloka after_sloka
           (world_of (Returns answer_ok) two_verses) two_verses eq_refl).
Defined.

Lemma output_only_when_done_witness :
  (exists data e st,
      safe_load (world_of (Returns (js "[]")) two_verses) = Returns data
      /\ Pipeline.enrich_loop before_sloka after_sloka
           (world_of (Returns (js "[]")) two_verses) data [] initial
         = (Raises e, st))
  /\ fst (main before_sloka after_sloka (world_of (Returns (js "[]")) two_verses) initial)
     = Raises AttributeError
  /\ written (snd (run before_sloka after_sloka (world_of (Returns (js "[]")) two_verses)))
     = None
  /\ written (snd (run before_sloka after_sloka (world_of (Returns answer_ok) two_verses)))
     = Some output_ok
  /\ fst (main before_sloka after_sloka (world_of (Returns answer_ok) two_verses) initial)
     = Returns tt
  /\ fst (run before_sloka after_sloka (world_of (Returns answer_ok) two_verses)) = 0%Z.
Proof.
  assert (exists data e st,
             safe_load (world_of (Returns (js "[]")) two_verses) = Returns data
             /\ Pipeline.enrich_loop before_sloka after_sloka
                  (world_of (Returns (js "[]")) two_verses) data [] initial
                = (Raises e, st)) as Hloop.
  { exists two_verses, AttributeError,
      (record_call (Pipeline.prompt before_sloka after_sloka verse1) initial).
    split; [reflexivity|]. vm_compute. reflexivity. }
  assert (written (snd (run before_sloka after_sloka
                          (world_of (Returns answer_ok) two_verses)))
          = Some output_ok) as Hw by (vm_compute; reflexivity).
  split; [exact Hloop|]. split; [vm_compute; reflexivity|]. split.
  - exact (proj2 (proj1 (output_only_when_done before_sloka after_sloka
                           (world_of (Returns (js "[]")) two_verses))
                    (or_intror (or_intror (or_intror Hloop))))).
  - split; [exact Hw|].
    exact (proj2 (output_only_when_done before_sloka after_sloka
                    (world_of (Returns answer_ok) two_verses)) output_ok Hw).
Defined.

Lemma verse_holds_own_answer_witness :
  safe_load (world_of (Returns answer_ok) two_verses) = Returns two_verses
  /\ NoDup (keys two_verses)
  /\ written (snd (run before_sloka after_sloka (world_of (Returns answer_ok) two_verses)))
     = Some output_ok
  /\ In verse2 (keys two_verses)
  /\ messages_create (world_of (Returns answer_ok) two_verses)
       (prompt before_sloka after_sloka verse2) = Returns answer_ok
  /\ exists v, insert_verify (parse_response answer_ok) = Returns v
               /\ dict_get output_ok verse2 = Some v.
Proof.
  assert (NoDup (keys two_verses)) as Hnd by distinct.
  assert (written (snd (run before_sloka after_sloka
                          (world_of (Returns answer_ok) two_verses)))
          = Some output_ok) as Hw by (vm_compute; reflexivity).
  assert (In verse2 (keys two_verses)) as Hin by (right; left; reflexivity).
  split; [reflexivity|]. split; [exact Hnd|]. split; [exact Hw|].
  split; [exact Hin|]. split; [reflexivity|].
  exact (verse_holds_own_answer before_sloka after_sloka
           (world_of (Returns answer_ok) two_verses) two_verses output_ok
           verse2 answer_ok eq_refl Hnd Hw Hin eq_refl).
Defined.

Lemma tagged_fence_extracts_witness :
  json_loads two_lines = Some one_entry
  /\ ~ In newline (py "json")
  /\ messages_create
       (world_of (Returns (framed (fence ++ py "json") two_lines fence)) two_verses)
       (Pipeline.prompt before_sloka after_sloka verse1)
     = Returns (framed (fence ++ py "json") two_lines fence)
  /\ generic_fence_branch (framed (fence ++ py "json") two_lines fence) = two_lines
  /\ parse_response (framed (fence ++ py "json") two_lines fence) = one_entry
  /\ Pipeline.parse_sloka_with_claude before_sloka after_sloka
       (world_of (Returns (framed (fence ++ py "json") two_lines fence)) two_verses)
       verse1 initial
     = (Returns one_entry,
        record_call (Pipeline.prompt before_sloka after_sloka verse1) initial).
Proof.
  assert (json_loads two_lines = Some one_entry) as Hj by (vm_compute; reflexivity).
  assert (~ In newline (py "json")) as Hn by not_in.
  split; [exact Hj|]. split; [exact Hn|]. split; [reflexivity|].
  destruct (tagged_fence_extracts before_sloka after_sloka (py "json") two_lines
              one_entry Hj Hn) as (Hg & Hp & Hrun).
  split; [exact Hg|]. split; [exact Hp|].
  exact (Hrun (world_of (Returns (framed (fence ++ py "json") two_lines fence)) two_verses)
           verse1 initial eq_refl).
Defined.

Lemma first_and_last_line_dropped_witness :
  startswith (py "```json") fence = true
  /\ ~ In newline (py "```json")
  /\ ~ In newline (js " []}")
  /\ generic_fence_branch (framed (py "```json") (js "{'entries':") (js " []}"))
     = js "{'entries':".
Proof.
  assert (~ In newline (py "```json")) as H1 by not_in.
  assert (~ In newline (js " []}")) as H2 by not_in.
  split; [reflexivity|]. split; [exact H1|]. split; [exact H2|].
  exact (first_and_last_line_dropped (py "```json") (js "{'entries':") (js " []}")
           eq_refl H1 H2).
Defined.

Lemma short_generic_fence_kept_witness :
  startswith (strip answer_short) fence = true
  /\ startswith (strip answer_short) json_fence = false
  /\ (length (split newline (strip answer_short)) <= 2)%nat
  /\ parse_response answer_short = empty_result.
Proof.
  assert (length (split newline (strip answer_short)) <= 2)%nat as Hl
    by (vm_compute; lia).
  split; [vm_compute; reflexivity|]. split; [vm_compute; reflexivity|].
  split; [exact Hl|].
  apply (short_generic_fence_kept answer_short);
    [vm_compute; reflexivity | vm_compute; reflexivity | exact Hl].
Defined.

Lemma api_error_recorded_witness :
  messages_create flaky (prompt before_sloka after_sloka verse1) = Raises OtherException
  /\ exists out,
       fst (run before_sloka after_sloka flaky) = 0%Z
       /\ written (snd (run before_sloka after_sloka flaky)) = Some out
       /\ dict_get out verse1 = Some empty_result
       /\ (forall other v, In other (keys two_verses) ->
             fst (enrich_sloka before_sloka after_sloka flaky other initial) = Returns v ->
             dict_get out other = Some v).
Proof.
  assert (NoDup (keys two_verses)) as Hnd by distinct.
  split; [vm_compute; reflexivity|].
  apply (api_error_recorded before_sloka after_sloka flaky two_verses verse1 OtherException);
    [reflexivity | reflexivity | exact Hnd | reflexivity | reflexivity
    | left; reflexivity | vm_compute; reflexivity | reflexivity | discriminate | ].
  intros other Hin Hne. simpl in Hin. destruct Hin as [E | [E | []]]; subst other.
  - now destruct Hne.
  - exists enriched_ok. vm_compute; reflexivity.
Defined.

Lemma entries_absent_or_string_kept_witness :
  dict_get [(py "entries", PyStr (py "none"))] (py "entries") = Some (PyStr (py "none"))
  /\ insert_verify (PyDict [(py "entries", PyStr (py "none"))])
     = Returns (PyDict [(py "entries", PyStr (py "none"))])
  /\ dict_get [(py "error", PyStr (py "none"))] (py "entries") = None
  /\ insert_verify (PyDict [(py "error", PyStr (py "none"))])
     = Returns (PyDict [(py "error", PyStr (py "none"))]).
Proof.
  split; [reflexivity|]. split.
  - apply (entries_absent_or_string_kept [(py "entries", PyStr (py "none"))]).
    right. exists (py "none"). reflexivity.
  - split; [reflexivity|].
    apply (entries_absent_or_string_kept [(py "error", PyStr (py "none"))]).
    left. reflexivity.
Defined.

Lemma unfenced_answer_untouched_witness :
  startswith (strip (js "  {'entries': []} ")) [backtick] = false
  /\ endswith (strip (js "  {'entries': []} ")) [backtick] = false
  /\ strip_fences (strip (js "  {'entries': []} ")) = js "{'entries': []}".
Proof.
  split; [vm_compute; reflexivity|]. split; [vm_compute; reflexivity|].
  exact (unfenced_answer_untouched (js "  {'entries': []} ") eq_refl eq_refl).
Defined.
